(** * Bamboo access reconciler: a shallow embedding and its properties

    The development follows [bamboo_access_reconciler.py] (class
    [BambooAccessReconciler]) and [main.py] (class [BambooAccess]).

    - Python dictionaries holding one permission entry are finite maps
      from column names to cells ([gmap string cell]).
    - A pandas [DataFrame] is a set of column names and a list of rows;
      every row is defined on every column.  The order of the columns is
      not modelled: the reconciler reads cells by column name only.
    - Python exceptions are values of [exn]; code that may raise returns
      a [result].
    - The Bamboo client, the file system and the standard output are the
      fields of [world]; methods that touch them live in the monad [M],
      which threads the world and stops at the first exception. *)

From stdpp Require Import gmap strings list fin_maps functions.

(** ** Cells and rows *)

(** What a cell of a frame can hold: a missing value, a YAML scalar, a
    YAML sequence of scalars (a permission list), or a YAML sequence of
    subject entries (name and permission list), as in the documented
    layout of the desired permissions file. *)
Inductive cell :=
| NaN
| VBool (b : bool)
| VStr (s : string)
| VList (l : list string)
| VEntries (l : list (string * list string)).

#[global] Instance cell_eq_dec : EqDecision cell.
Proof. solve_decision. Defined.

(** Python lists are not hashable, every other cell is. *)
Definition hashable (c : cell) : bool :=
  match c with
  | VList _ | VEntries _ => false
  | _ => true
  end.

(** ** Domains, client requests, exceptions *)

Inductive domain :=
| Global
| BuildPlan
| Project
| Deployment
| DeploymentProject
| DeploymentEnvironment.

#[global] Instance domain_eq_dec : EqDecision domain.
Proof. solve_decision. Defined.

(** The fixed order in which every method walks the six domains. *)
Definition domains : list domain :=
  [Global; BuildPlan; Project; Deployment; DeploymentProject;
   DeploymentEnvironment].

(** Calls on [self.bamboo_client]: [get_*_permissions()],
    [add_*_permission(...)] and [remove_*_permission(...)]. *)
Inductive request :=
| Fetch (d : domain)
| Grant (d : domain) (args : list cell)
| Revoke (d : domain) (args : list cell).

#[global] Instance request_eq_dec : EqDecision request.
Proof. solve_decision. Defined.

Inductive exn :=
| YAMLError (msg : string)
| UnboundLocalError (var : string)
| KeyError (k : string)
| MergeError
| ValueError
| TypeError
| ClientError (q : request).

Inductive result (A : Type) :=
| Ok (a : A)
| Raise (e : exn).
Arguments Ok {A} a.
Arguments Raise {A} e.

#[global] Instance result_ret : MRet result := λ A a, Ok a.
#[global] Instance result_bind : MBind result := λ A B f m,
  match m with
  | Ok a => f a
  | Raise e => Raise e
  end.

(** [d[k]] on a Python dict. *)
Definition subscript (r : gmap string cell) (k : string) : result cell :=
  match r !! k with
  | Some c => Ok c
  | None => Raise (KeyError k)
  end.

(** ** The part of pandas the reconciler uses *)

Record DataFrame := {
  columns : gset string;
  rows : list (gmap string cell)
}.

(** A row completed with [NaN] on the columns it lacks. *)
Definition fill (cols : gset string) (r : gmap string cell)
  : gmap string cell :=
  r ∪ gset_to_gmap NaN cols.

(** [pd.DataFrame(data)] for a list of dicts: the columns are the keys
    that occur, a dict that lacks a column gets [NaN] there.  An empty
    list gives a frame without columns. *)
Definition pd_DataFrame (data : list (gmap string cell)) : DataFrame :=
  let cols := ⋃ (dom <$> data) in
  {| columns := cols; rows := fill cols <$> data |}.

(** [df.to_dict(orient='records')]. *)
Definition to_dict_records (df : DataFrame) : list (gmap string cell) :=
  rows df.

(** Two rows agree on the join key [K]. *)
Definition agree (K : gset string) (l r : gmap string cell) : Prop :=
  set_Forall (λ k, l !! k = r !! k) K.

#[global] Instance agree_dec K l r : Decision (agree K l r).
Proof. unfold agree. apply _. Defined.

Definition hashable_keys (K : gset string) (df : DataFrame) : Prop :=
  Forall (λ r : gmap string cell,
            set_Forall (λ k, from_option hashable true (r !! k) = true) K)
         (rows df).

#[global] Instance hashable_keys_dec K df : Decision (hashable_keys K df).
Proof. unfold hashable_keys. apply _. Defined.

(** Column names that [merge(..., indicator=True)] refuses in its
    inputs. *)
Definition reserved : gset string :=
  {[ "_left_indicator"; "_right_indicator"; "_merge" ]}.

Definition tag (t : string) (r : gmap string cell) : gmap string cell :=
  <["_merge" := VStr t]> r.

(** The rows a left row contributes: one per matching right row, or the
    row alone, completed with [NaN], when nothing matches. *)
Definition left_rows (K cr : gset string) (right : list (gmap string cell))
    (l : gmap string cell) : list (gmap string cell) :=
  match filter (agree K l) right with
  | [] => [tag "left_only" (fill cr l)]
  | ms => (λ r, tag "both" (l ∪ r)) <$> ms
  end.

(** The right rows no left row matches. *)
Definition right_only_rows (K cl : gset string)
    (left right : list (gmap string cell)) : list (gmap string cell) :=
  (λ r, tag "right_only" (fill cl r))
    <$> filter (λ r, ¬ Exists (λ l, agree K l r) left) right.

(** [left.merge(right, indicator=True, how='outer')]: no [on] is given,
    so the join key is the set of columns the two frames share; without a
    shared column pandas raises [MergeError].  Key cells are hashed, so a
    list in a key column raises [TypeError].  Rows with equal keys are
    paired (all pairs when a key repeats); [NaN] keys match each other.
    The model lists the rows of the left frame first; pandas may order
    them differently, and no statement below depends on that order.
    Column types are not modelled: pandas also refuses ([ValueError]) to
    merge key columns of incompatible types, such as a column of strings
    and a column that holds missing values only. *)
Definition merge_outer_indicator (left right : DataFrame)
  : result DataFrame :=
  let K := columns left ∩ columns right in
  if decide (K = ∅) then Raise MergeError
  else if decide (columns left ∪ columns right ## reserved) then
    if decide (hashable_keys K left ∧ hashable_keys K right) then
      Ok {| columns := columns left ∪ columns right ∪ {[ "_merge" ]};
            rows := (rows left ≫= left_rows K (columns right) (rows right))
                    ++ right_only_rows K (columns left)
                         (rows left) (rows right) |}
    else Raise TypeError
  else Raise ValueError.

(** [df[df['_merge'] == t]]. *)
Definition mask_merge (t : string) (df : DataFrame) : DataFrame :=
  {| columns := columns df;
     rows := filter (λ r, r !! "_merge" = Some (VStr t)) (rows df) |}.

(** ** The world outside the reconciler *)

(** Positional arguments of the add/remove call of each domain, after
    the columns [update_permissions] reads from a diff row. *)
Definition call_columns (d : domain) : list string :=
  match d with
  | Global | Deployment => ["permission"; "type"; "name"]
  | Project | DeploymentProject =>
      ["permission"; "type"; "name"; "projectKey"]
  | BuildPlan => ["permission"; "type"; "name"; "projectKey"; "planKey"]
  | DeploymentEnvironment =>
      ["permission"; "type"; "name"; "projectKey"; "environmentId"]
  end.

(** Top-level key of a domain in the permissions documents. *)
Definition yaml_key (d : domain) : string :=
  match d with
  | Global => "global_permissions"
  | BuildPlan => "build_plan_permissions"
  | Project => "project_permissions"
  | Deployment => "deployment_permissions"
  | DeploymentProject => "deployment_project_permissions"
  | DeploymentEnvironment => "deployment_environment_permissions"
  end.

(** [yaml.dump] of a dict with one key per domain. *)
Definition yaml_document : Type := list (string * list (gmap string cell)).

Record world := World {
  (** permission entries held by the Bamboo server, per domain *)
  store : domain → list (gmap string cell);
  (** whether the client call [q] fails after the calls made so far *)
  fails : list request → request → bool;
  (** the client calls made so far, oldest first *)
  trace : list request;
  (** what [yaml.safe_load] makes of [desired_permissions_file]: a parse
      error, or a mapping from top-level keys to lists of entries *)
  desired_file : string + gmap string (list (gmap string cell));
  (** files written so far, oldest first *)
  files : list (string * yaml_document);
  (** lines printed so far *)
  stdout : list string
}.

(** Modelled from the spec: the permission service behind
    [self.bamboo_client], which is not part of the repository.  The spec
    takes it as an idempotent grant/revoke interface: a grant makes the
    entry with the given fields present, a revoke makes it absent, and a
    fetch returns the entries present. *)
Definition entry_of (d : domain) (args : list cell) : gmap string cell :=
  list_to_map (zip (call_columns d) args).

Definition grant_entry (e : gmap string cell)
    (es : list (gmap string cell)) : list (gmap string cell) :=
  if decide (e ∈ es) then es else es ++ [e].

Definition revoke_entry (e : gmap string cell)
    (es : list (gmap string cell)) : list (gmap string cell) :=
  filter (λ x, x ≠ e) es.

Definition serve (q : request) (s : domain → list (gmap string cell))
  : domain → list (gmap string cell) :=
  match q with
  | Fetch _ => s
  | Grant d args => <[d := grant_entry (entry_of d args) (s d)]> s
  | Revoke d args => <[d := revoke_entry (entry_of d args) (s d)]> s
  end.

(** ** The monad of the methods *)

Definition M (A : Type) : Type := world → result A * world.

#[global] Instance M_ret : MRet M := λ A a w, (Ok a, w).
#[global] Instance M_bind : MBind M := λ A B f m w,
  match m w with
  | (Ok a, w') => f a w'
  | (Raise e, w') => (Raise e, w')
  end.

Definition lift {A} (r : result A) : M A := λ w, (r, w).

(** A Python [for] loop over a list. *)
Fixpoint for_each {A} (l : list A) (body : A → M unit) : M unit :=
  match l with
  | [] => mret ()
  | x :: l' => body x ;; for_each l' body
  end.

(** One call on the client: it is recorded, then it either fails with
    the client's exception or takes effect on the server.  What an add
    or remove call returns is not modelled: [update_permissions]
    discards it, so that an exception is the only failure of a call the
    reconciler can notice. *)
Definition client_call (q : request) : M unit := λ w,
  let t := trace w ++ [q] in
  if fails w (trace w) q then
    (Raise (ClientError q),
     World (store w) (fails w) t (desired_file w) (files w) (stdout w))
  else
    (Ok (),
     World (serve q (store w)) (fails w) t (desired_file w) (files w)
           (stdout w)).

Definition served (d : domain) : M (list (gmap string cell)) :=
  λ w, (Ok (store w d), w).

Definition client_get (d : domain) : M (list (gmap string cell)) :=
  client_call (Fetch d) ;; served d.

(** [with open(name, 'w') as outfile: yaml.dump(doc, outfile)]. *)
Definition write_yaml (name : string) (doc : yaml_document) : M unit :=
  λ w, (Ok (),
        World (store w) (fails w) (trace w) (desired_file w)
              (files w ++ [(name, doc)]) (stdout w)).

Definition print (line : string) : M unit :=
  λ w, (Ok (),
        World (store w) (fails w) (trace w) (desired_file w) (files w)
              (stdout w ++ [line])).

(** The six results of a method, in the order of [domains]. *)
Definition keyed (suffix : string) {A} (xs : list (domain * A))
  : list (string * A) :=
  (λ '(d, x), (yaml_key d +:+ suffix, x)) <$> xs.

(** ** [main.py]: class [BambooAccess] *)

Module BambooAccess.

(** Six fetches, one after the other; the first failure propagates. *)
Definition get_all_permissions : M (list (domain * list (gmap string cell))) :=
  mapM (λ d, es ← client_get d; mret (d, es)) domains.

Definition get_all_permissions_df : M (list (domain * DataFrame)) :=
  ps ← get_all_permissions;
  mret (prod_map id pd_DataFrame <$> ps).

Definition get_all_permissions_df_yaml
  : M (list (domain * list (gmap string cell))) :=
  dfs ← get_all_permissions_df;
  mret (prod_map id to_dict_records <$> dfs).

Definition write_all_permissions_df_yaml (output_file : string)
  : M (list (domain * list (gmap string cell))) :=
  ys ← get_all_permissions_df_yaml;
  write_yaml output_file (keyed "" ys) ;;
  mret ys.

End BambooAccess.

(** ** [bamboo_access_reconciler.py]: class [BambooAccessReconciler] *)

Definition get_current_permissions
  : M (list (domain * list (gmap string cell))) :=
  BambooAccess.write_all_permissions_df_yaml "current_permissions.yaml".

(** The [except yaml.YAMLError] clause prints the error and falls
    through to the [return], where the local variable was never bound. *)
Definition get_desired_permissions
  : M (gmap string (list (gmap string cell))) := λ w,
  match desired_file w with
  | inr doc => (Ok doc, w)
  | inl exc =>
      (print exc ;;
       lift (Raise (UnboundLocalError "desired_permissions_df_yaml"))) w
  end.

Definition get_current_permissions_df : M (list (domain * DataFrame)) :=
  ys ← get_current_permissions;
  mret (prod_map id pd_DataFrame <$> ys).

(** The six subscripts are evaluated before any frame is built. *)
Definition desired_entries (doc : gmap string (list (gmap string cell)))
  : result (list (domain * list (gmap string cell))) :=
  mapM (λ d, match doc !! yaml_key d with
             | Some es => Ok (d, es)
             | None => Raise (KeyError (yaml_key d))
             end) domains.

Definition get_desired_permissions_df : M (list (domain * DataFrame)) :=
  doc ← get_desired_permissions;
  ys ← lift (desired_entries doc);
  mret (prod_map id pd_DataFrame <$> ys).

Definition merge_all (cur des : list (domain * DataFrame))
  : result (list (domain * DataFrame)) :=
  mapM (λ p : (domain * DataFrame) * (domain * DataFrame),
          df ← merge_outer_indicator p.1.2 p.2.2;
          mret (p.1.1, df))
       (zip cur des).

Definition get_permissions_diff : M (list (domain * DataFrame)) :=
  current_permissions_df ← get_current_permissions_df;
  desired_permissions_df ← get_desired_permissions_df;
  lift (merge_all current_permissions_df desired_permissions_df).

Definition get_permissions_diff_df : M (list (domain * DataFrame)) :=
  get_permissions_diff.

Definition get_permissions_diff_df_yaml
  : M (list (domain * list (gmap string cell))) :=
  permissions_diff_df ← get_permissions_diff_df;
  mret (prod_map id to_dict_records <$> permissions_diff_df).

Definition write_permissions_diff_df_yaml (output_file : string)
  : M (list (domain * list (gmap string cell))) :=
  ys ← get_permissions_diff_df_yaml;
  write_yaml output_file (keyed "_diff" ys) ;;
  mret ys.

(** The arguments of one add/remove call: the subscripts of the diff
    row, left to right. *)
Definition call_args (d : domain) (r : gmap string cell)
  : result (list cell) :=
  mapM (subscript r) (call_columns d).

Definition add_permission (d : domain) (r : gmap string cell) : M unit :=
  args ← lift (call_args d r);
  client_call (Grant d args).

Definition remove_permission (d : domain) (r : gmap string cell) : M unit :=
  args ← lift (call_args d r);
  client_call (Revoke d args).

Definition selected (t : string) (diff : list (domain * DataFrame))
  : list (domain * list (gmap string cell)) :=
  prod_map id (λ df, to_dict_records (mask_merge t df)) <$> diff.

(** Returns the six added lists and the six removed lists. *)
Definition update_permissions
  : M (list (domain * list (gmap string cell))
       * list (domain * list (gmap string cell))) :=
  permissions_diff_df ← get_permissions_diff_df;
  let added := selected "right_only" permissions_diff_df in
  let removed := selected "left_only" permissions_diff_df in
  for_each added (λ p, for_each p.2 (add_permission p.1)) ;;
  for_each removed (λ p, for_each p.2 (remove_permission p.1)) ;;
  mret (added, removed).

Definition write_permissions_diff_df_yaml_added (output_file : string)
  : M (list (domain * list (gmap string cell))) :=
  permissions_diff_df_yaml_added ← update_permissions;
  write_yaml output_file
    (keyed "_diff_added" permissions_diff_df_yaml_added.1) ;;
  mret permissions_diff_df_yaml_added.1.

Definition write_permissions_diff_df_yaml_removed (output_file : string)
  : M (list (domain * list (gmap string cell))) :=
  permissions_diff_df_yaml_removed ← update_permissions;
  write_yaml output_file
    (keyed "_diff_removed" permissions_diff_df_yaml_removed.2) ;;
  mret permissions_diff_df_yaml_removed.2.

(** The [__main__] block of the reconciler. *)
Definition main : M unit :=
  write_permissions_diff_df_yaml "permissions_diff.yaml" ;;
  write_permissions_diff_df_yaml_added "permissions_diff_added.yaml" ;;
  write_permissions_diff_df_yaml_removed "permissions_diff_removed.yaml" ;;
  mret ().

(** ** Vocabulary of the statements *)

Definition is_fetch (q : request) : Prop := ∃ d, q = Fetch d.
Definition is_grant (q : request) : Prop := ∃ d args, q = Grant d args.
Definition is_revoke (q : request) : Prop := ∃ d args, q = Revoke d args.

(** [add_permission] and [remove_permission] differ in the client method
    only. *)
Definition permission_call (mk : domain → list cell → request)
    (d : domain) (r : gmap string cell) : M unit :=
  args ← lift (call_args d r);
  client_call (mk d args).

(** The calls a selection of diff rows asks for, in loop order. *)
Definition planned (mk : domain → list cell → request)
    (sel : list (domain * list (gmap string cell))) : list request :=
  p ← sel;
  r ← p.2;
  match call_args p.1 r with
  | Ok args => [mk p.1 args]
  | Raise _ => []
  end.

(** [w'] is [w] after the client calls [qs]. *)
Definition extends (w w' : world) (qs : list request) : Prop :=
  trace w' = trace w ++ qs
  ∧ fails w' = fails w
  ∧ desired_file w' = desired_file w.

(** A computation whose client calls all satisfy [P], and which ends at
    the first failing call with that call's exception. *)
Definition runs {A} (P : request → Prop) (m : M A) : Prop :=
  ∀ w, ∃ qs,
    extends w (m w).2 qs
    ∧ Forall P qs
    ∧ ∀ pre q post,
        qs = pre ++ q :: post →
        fails w (trace w ++ pre) q = true →
        post = [] ∧ (m w).1 = Raise (ClientError q).

Definition with_trace (w : world) (t : list request) : world :=
  World (store w) (fails w) t (desired_file w) (files w) (stdout w).

(** No fetch fails, whatever was called before. *)
Definition fetch_available (w : world) : Prop :=
  ∀ h d, fails w h (Fetch d) = false.

(** The fetch of [d], and no other fetch, fails. *)
Definition fetch_fails_only (d : domain) (w : world) : Prop :=
  ∀ h d', fails w h (Fetch d') = bool_decide (d' = d).

(** The frames [get_current_permissions_df] builds from the server's
    entries: each list goes through a frame and back to records (on its
    way to [current_permissions.yaml]) before the final frame. *)
Definition current_frames (s : domain → list (gmap string cell))
  : list (domain * DataFrame) :=
  (λ d, (d, pd_DataFrame (to_dict_records (pd_DataFrame (s d)))))
    <$> domains.

(** The world after the six fetches of [get_current_permissions]. *)
Definition fetched (w : world) : world :=
  World (store w) (fails w) (trace w ++ (Fetch <$> domains))
        (desired_file w)
        (files w ++ [("current_permissions.yaml",
                      keyed "" ((λ d, (d, to_dict_records
                                            (pd_DataFrame (store w d))))
                                  <$> domains))])
        (stdout w).

(** The six merged frames, as a function of the server's entries and of
    the desired document. *)
Definition plan_diff (s : domain → list (gmap string cell))
    (doc : gmap string (list (gmap string cell)))
  : result (list (domain * DataFrame)) :=
  ys ← desired_entries doc;
  merge_all (current_frames s) (prod_map id pd_DataFrame <$> ys).

(** The server after a sequence of successful calls. *)
Definition served_calls (qs : list request)
    (s : domain → list (gmap string cell))
  : domain → list (gmap string cell) :=
  foldl (λ s q, serve q s) s qs.

Definition with_file (w : world) (name : string) (doc : yaml_document)
  : world :=
  World (store w) (fails w) (trace w) (desired_file w)
        (files w ++ [(name, doc)]) (stdout w).

(** ** Example worlds *)

(** An entry of domain [d] for user [name], in the shape of the
    add/remove calls of [d]. *)
Definition entry (d : domain) (name permission : string)
  : gmap string cell :=
  entry_of d [VStr permission; VStr "USER"; VStr name; VStr "PROJECT-1";
              VStr "1"].

(** A server and a desired document that hold the administrator's entry
    in every domain, and the given entries in the global domain. *)
Definition example_server (g : list (gmap string cell))
  : domain → list (gmap string cell) :=
  <[Global := g]> (λ d, [entry d "admin" "ADMINISTER"]).

Definition example_document (g : list (gmap string cell))
  : gmap string (list (gmap string cell)) :=
  <[yaml_key Global := g]>
    (list_to_map ((λ d, (yaml_key d, [entry d "admin" "ADMINISTER"]))
                    <$> domains)).

Definition example_world (current desired : list (gmap string cell))
    (fl : list request → request → bool) : world :=
  World (example_server current) fl [] (inr (example_document desired))
        [] [].

(** Scenario C of the spec: [jdoe] loses EDIT and gains VIEW. *)
Definition world_replace : world :=
  example_world
    [entry Global "admin" "ADMINISTER"; entry Global "jdoe" "EDIT"]
    [entry Global "admin" "ADMINISTER"; entry Global "jdoe" "VIEW"]
    (λ _ _, false).

(** Scenario D of the spec: the fetch of the deployment domain fails,
    and [jdoe] should gain BUILD in the global domain. *)
Definition world_fetch_error : world :=
  example_world
    [entry Global "admin" "ADMINISTER"]
    [entry Global "admin" "ADMINISTER"; entry Global "jdoe" "BUILD"]
    (λ _ q, bool_decide (q = Fetch Deployment)).

(** Two grants are due and the first one fails. *)
Definition world_grant_error : world :=
  example_world
    [entry Global "admin" "ADMINISTER"]
    [entry Global "admin" "ADMINISTER"; entry Global "jdoe" "BUILD";
     entry Global "asmith" "VIEW"]
    (λ _ q, bool_decide
              (q = Grant Global [VStr "BUILD"; VStr "USER"; VStr "jdoe"])).

(** The desired permissions file does not parse. *)
Definition world_parse_error : world :=
  World (example_server [entry Global "admin" "ADMINISTER"]) (λ _ _, false)
        [] (inl "mapping values are not allowed here") [] [].

(** The cell of column [k] holds a value. *)
Definition populated (k : string) (r : gmap string cell) : Prop :=
  ∃ c, r !! k = Some c ∧ c ≠ NaN.

(** The row [x] is the entry [e], completed with [NaN] only. *)
Definition carried (e x : gmap string cell) : Prop :=
  e ⊆ x ∧ ∀ k c, x !! k = Some c → c ≠ NaN → e !! k = Some c.

(** The computation ended without an exception. *)
Definition succeeded {A} (r : result A) : bool :=
  match r with
  | Ok _ => true
  | Raise _ => false
  end.

Definition empty_frame : DataFrame := {| columns := ∅; rows := [] |}.

Definition frame_of (r : result DataFrame) : DataFrame :=
  match r with
  | Ok df => df
  | Raise _ => empty_frame
  end.

Definition frames_of (r : result (list (domain * DataFrame)))
  : list (domain * DataFrame) :=
  match r with
  | Ok dfs => dfs
  | Raise _ => []
  end.

(** The administrator's global entry with a [value] column. *)
Definition valued (value : bool) : gmap string cell :=
  <["value" := VBool value]> (entry Global "admin" "ADMINISTER").

(** Scenario B of the spec, in the global domain: the desired document
    lists no global permission, the server holds one. *)
Definition world_revoke_all : world :=
  example_world [entry Global "admin" "BUILD"] [] (λ _ _, false).

(** A subject entry in the documented layout of the desired file. *)
Definition subject (name : string) (permissions : list string)
  : gmap string cell :=
  {[ "name" := VStr name; "permissions" := VList permissions ]}.

(** A scope entry (plan, project, ...) in the documented layout. *)
Definition scope (name : string)
    (subjects : list (string * list string)) : gmap string cell :=
  {[ "name" := VStr name; "permissions" := VEntries subjects ]}.

(** The example document at the end of the reconciler's source. *)
Definition documented_example : gmap string (list (gmap string cell)) :=
  let admin := ["ADMINISTER"; "BUILD"; "CLONE"; "EDIT"; "VIEW"] in
  let jdoe := ["BUILD"; "CLONE"; "EDIT"; "VIEW"] in
  let subjects := [("admin", admin); ("jdoe", jdoe)] in
  list_to_map
    [("global_permissions", [subject "admin" admin; subject "jdoe" jdoe]);
     ("build_plan_permissions", [scope "BUILD-PLAN-1" subjects]);
     ("project_permissions", [scope "PROJECT-1" subjects]);
     ("deployment_permissions", [scope "DEPLOYMENT-1" subjects]);
     ("deployment_project_permissions",
      [scope "DEPLOYMENT-PROJECT-1" subjects]);
     ("deployment_environment_permissions",
      [scope "DEPLOYMENT-ENVIRONMENT-1" subjects])].

Definition world_documented : world :=
  World (example_server [entry Global "admin" "ADMINISTER"]) (λ _ _, false)
        [] (inr documented_example) [] [].

(** Entries in the columns of the test file ([user], [group],
    [permission]): the desired one names a user and a group, the one on
    the server names neither. *)
Definition both_identities : gmap string cell :=
  {[ "user" := VStr "admin"; "group" := VStr "admins";
     "permission" := VStr "ADMINISTER" ]}.

Definition no_identity : gmap string cell :=
  {[ "permission" := VStr "VIEW" ]}.

Definition world_identities : world :=
  example_world [no_identity] [both_identities] (λ _ _, false).

(** ** Vocabulary of a second run *)

(** Every entry the server holds has exactly the fields that an
    add/remove call of its domain carries. *)
Definition store_wf (s : domain → list (gmap string cell)) : Prop :=
  ∀ d, Forall (λ e, dom e = list_to_set (call_columns d)) (s d).

(** The frame [get_current_permissions_df] builds for one domain. *)
Definition current_frame (es : list (gmap string cell)) : DataFrame :=
  pd_DataFrame (to_dict_records (pd_DataFrame es)).

(** The entry a grant or revoke call makes of a diff row: the cells of
    the row at the call's columns. *)
Definition called_entry (d : domain) (row : gmap string cell)
  : gmap string cell :=
  filter (λ kc, kc.1 ∈ call_columns d) row.

(** Six empty selections: nothing to add, or nothing to remove. *)
Definition no_selection : list (domain * list (gmap string cell)) :=
  (λ d, (d, [])) <$> domains.

(** ** Vocabulary of the effects *)

(** A computation that leaves a component of the world as it found it,
    whether it ends normally or not. *)
Definition keeps {A B} (field : world → B) (m : M A) : Prop :=
  ∀ w, field (m w).2 = field w.

(** The desired entries of a domain; none when its key is missing. *)
Definition desired_of (doc : gmap string (list (gmap string cell)))
    (d : domain) : list (gmap string cell) :=
  default [] (doc !! yaml_key d).

(** The merge [get_permissions_diff] makes for one domain, from the
    server's entries and the desired document. *)
Definition domain_diff (s : domain → list (gmap string cell))
    (doc : gmap string (list (gmap string cell))) (d : domain)
  : result DataFrame :=
  merge_outer_indicator (pd_DataFrame (s d)) (pd_DataFrame (desired_of doc d)).

(** The cells of a row at the call columns of a domain, in call order. *)
Definition call_cells (d : domain) (row : gmap string cell) : list cell :=
  omap (λ k, row !! k) (call_columns d).

(** The calls of a selection when every row has the call columns: one
    call per row, in loop order. *)
Definition calls_of (mk : domain → list cell → request)
    (sel : list (domain * list (gmap string cell))) : list request :=
  p ← sel; (λ row, mk p.1 (call_cells p.1 row)) <$> p.2.

(** A desired global entry that names no [type]. *)
Definition untyped : gmap string cell :=
  {[ "permission" := VStr "VIEW"; "name" := VStr "jdoe" ]}.

Definition world_untyped : world :=
  example_world [entry Global "admin" "ADMINISTER"]
    [entry Global "admin" "ADMINISTER"; untyped] (λ _ _, false).

(** The value of a computation that ended normally. *)
Definition result_or {A} (a : A) (r : result A) : A :=
  match r with
  | Ok x => x
  | Raise _ => a
  end.

(** Every desired entry has exactly the fields that an add/remove call
    of its domain carries. *)
Definition desired_wf (doc : gmap string (list (gmap string cell))) : Prop :=
  ∀ d, Forall (λ e, dom e = list_to_set (call_columns d)) (desired_of doc d).

(** Two servers hold the same entries in every domain. *)
Definition same_entries (s t : domain → list (gmap string cell)) : Prop :=
  ∀ d x, x ∈ s d ↔ x ∈ t d.

(** The three values of the merge indicator. *)
Definition indicators : list string := ["left_only"; "right_only"; "both"].

(** The names of the files written so far, oldest first. *)
Definition written (w : world) : list string := (files w).*1.

(** A desired document without the [project_permissions] key. *)
Definition world_missing_key : world :=
  World (example_server [entry Global "admin" "ADMINISTER"]) (λ _ _, false)
        []
        (inr (delete "project_permissions"
                (example_document [entry Global "admin" "ADMINISTER"])))
        [] [].

(** The fetch of the project domain fails once the global and build
    plan fetches have been made. *)
Definition world_project_fetch_error : world :=
  example_world [entry Global "admin" "ADMINISTER"]
    [entry Global "admin" "ADMINISTER"]
    (λ h q, bool_decide (h = [Fetch Global; Fetch BuildPlan]
                         ∧ q = Fetch Project)).

(** ** Vocabulary of a failing fetch *)

(** In the run of [m] from [w] a fetch fails: the run makes the calls
    [pre] and then the fetch of [d], and this fetch fails. *)
Definition fetch_fails_in {A} (m : M A) (w : world) (pre : list request)
    (d : domain) : Prop :=
  ∃ post, trace (m w).2 = trace w ++ pre ++ Fetch d :: post
          ∧ fails w (trace w ++ pre) (Fetch d) = true.

(** A computation that a failing fetch ends on the spot: it has made
    fetch calls only, and but for these calls the world is as it was. *)
Definition stops_at_failed_fetch {A} (m : M A) : Prop :=
  ∀ w pre d,
    fetch_fails_in m w pre d →
    Forall is_fetch pre
    ∧ m w = (Raise (ClientError (Fetch d)),
             with_trace w (trace w ++ pre ++ [Fetch d])).

(** The worlds in which the three passes of the main program start: the
    plain diff report starts in [w], the added report in the world the
    plain diff report leaves, and the removed report in the world the
    added report leaves. *)
Definition pass_starts (w : world) : list world :=
  let w1 := (write_permissions_diff_df_yaml "permissions_diff.yaml" w).2 in
  let w2 := (write_permissions_diff_df_yaml_added
               "permissions_diff_added.yaml" w1).2 in
  [w; w1; w2].

(** The replacement scenario, with a deployment fetch that fails in the
    third pass of the main program only: after the seventeen calls of
    the first two passes and of the three fetches before it. *)
Definition world_late_fetch_error : world :=
  example_world
    [entry Global "admin" "ADMINISTER"; entry Global "jdoe" "EDIT"]
    [entry Global "admin" "ADMINISTER"; entry Global "jdoe" "VIEW"]
    (λ h q, bool_decide (length h = 17 ∧ q = Fetch Deployment)).

(** The six fetches of a run that starts in [w] succeed. *)
Definition fetches_succeed (w : world) : Prop :=
  ∀ pre d post,
    domains = pre ++ d :: post →
    fails w (trace w ++ (Fetch <$> pre)) (Fetch d) = false.

(** * Properties *)

(** Closed decidable facts are settled by evaluation. *)
Ltac by_compute := apply (bool_decide_unpack _); vm_compute; exact I.

(** ** The monad *)

Lemma bind_run {A B} (m : M A) (f : A → M B) w :
  (m ≫= f) w = match m w with
               | (Ok a, w') => f a w'
               | (Raise e, w') => (Raise e, w')
               end.
Proof. reflexivity. Qed.

Lemma bind_ok_inv {A B} (m : M A) (f : A → M B) w b w' :
  (m ≫= f) w = (Ok b, w') →
  ∃ a w1, m w = (Ok a, w1) ∧ f a w1 = (Ok b, w').
Proof.
  rewrite bind_run. destruct (m w) as [[a|e] w1]; [eauto | discriminate].
Qed.

Lemma bind_raise {A B} (m : M A) (f : A → M B) w e w' :
  m w = (Raise e, w') → (m ≫= f) w = (Raise e, w').
Proof. intros H. by rewrite bind_run, H. Qed.

Lemma bind_ok {A B} (m : M A) (f : A → M B) w a w1 :
  m w = (Ok a, w1) → (m ≫= f) w = f a w1.
Proof. intros H. by rewrite bind_run, H. Qed.

Lemma extends_refl w : extends w w [].
Proof. unfold extends. by rewrite app_nil_r. Qed.

Lemma extends_trans w1 w2 w3 qs qs' :
  extends w1 w2 qs → extends w2 w3 qs' → extends w1 w3 (qs ++ qs').
Proof.
  intros (H1 & H2 & H3) (H4 & H5 & H6). unfold extends.
  by rewrite H4, H1, H5, H2, H6, H3, (assoc_L (++)).
Qed.

Lemma runs_mono {A} (P Q : request → Prop) (m : M A) :
  (∀ q, P q → Q q) → runs P m → runs Q m.
Proof.
  intros HPQ Hm w. destruct (Hm w) as (qs & He & Hall & Hd).
  exists qs. split_and!; [done | by eapply Forall_impl | done].
Qed.

Lemma runs_silent {A} (P : request → Prop) (m : M A) :
  (∀ w, extends w (m w).2 []) → runs P m.
Proof.
  intros H w. exists []. split_and!; [done | constructor |].
  intros pre q post Hq. by destruct pre.
Qed.

Lemma runs_ret {A} P (a : A) : runs P (mret a : M A).
Proof. apply runs_silent. intros w. apply extends_refl. Qed.

Lemma runs_lift {A} P (r : result A) : runs P (lift r).
Proof. apply runs_silent. intros w. apply extends_refl. Qed.

Lemma runs_bind {A B} P (m : M A) (f : A → M B) :
  runs P m → (∀ a, runs P (f a)) → runs P (m ≫= f).
Proof.
  intros Hm Hf w. destruct (Hm w) as (qs & He & Hall & Hd).
  rewrite bind_run. destruct (m w) as [[a|e] w1] eqn:Hmw; cbn in *.
  - destruct (Hf a w1) as (qs' & He' & Hall' & Hd').
    exists (qs ++ qs'). split; [| split].
    + by eapply extends_trans.
    + by apply Forall_app.
    + intros pre q post Heq Hfail.
      destruct He as (Ht & Hfl & _).
      apply app_eq_inv in Heq as [(k & Hk & Hk')|(k & -> & Hk)].
      * destruct k as [|q' k]; cbn in Hk'.
        -- rewrite app_nil_r in Hk. subst qs. rewrite <- Ht, <- Hfl in Hfail.
           apply (Hd' [] q post); [done | by rewrite app_nil_r].
        -- injection Hk' as <- ->.
           destruct (Hd pre q k) as [_ ?]; [done | done | discriminate].
      * rewrite (assoc_L (++)), <- Ht, <- Hfl in Hfail. eauto.
  - exists qs. split; [exact He | split; [exact Hall |]].
    intros pre q post Heq Hfail.
    destruct (Hd pre q post Heq Hfail) as [? [= ->]]. done.
Qed.

Lemma runs_client_call (P : request → Prop) q : P q → runs P (client_call q).
Proof.
  intros HP w. exists [q]. unfold client_call.
  destruct (fails w (trace w) q) eqn:Hf; cbn.
  - split; [done | split; [by constructor |]]. intros pre q' post Heq Hfail.
    destruct pre as [|? [|? ?]]; simplify_eq/=. done.
  - split; [done | split; [by constructor |]]. intros pre q' post Heq Hfail.
    destruct pre as [|? [|? ?]]; simplify_eq/=.
    rewrite app_nil_r in Hfail. congruence.
Qed.

Lemma runs_for_each {A} P (l : list A) (body : A → M unit) :
  (∀ x, runs P (body x)) → runs P (for_each l body).
Proof.
  intros Hb. induction l as [|x l IH]; cbn.
  - apply runs_ret.
  - apply runs_bind; [apply Hb | done].
Qed.

Lemma runs_mapM {A B} P (f : A → M B) (l : list A) :
  (∀ x, runs P (f x)) → runs P (mapM f l).
Proof.
  intros Hf. induction l as [|x l IH]; cbn.
  - apply runs_ret.
  - apply runs_bind; [apply Hf | intros y].
    apply runs_bind; [done | intros k; apply runs_ret].
Qed.

(** ** Client calls of the methods *)

Lemma runs_served P d : runs P (served d).
Proof. apply runs_silent. intros w. apply extends_refl. Qed.

Lemma runs_write_yaml P name doc : runs P (write_yaml name doc).
Proof.
  apply runs_silent. intros w. unfold extends; cbn. by rewrite app_nil_r.
Qed.

Lemma runs_print P line : runs P (print line).
Proof.
  apply runs_silent. intros w. unfold extends; cbn. by rewrite app_nil_r.
Qed.

Lemma client_call_extends q w : extends w (client_call q w).2 [q].
Proof. unfold client_call. by destruct (fails w (trace w) q). Qed.

Lemma runs_client_get d : runs is_fetch (client_get d).
Proof.
  apply runs_bind; [| intros _; apply runs_served].
  apply runs_client_call. by exists d.
Qed.

Lemma runs_get_current_permissions :
  runs is_fetch get_current_permissions.
Proof.
  apply runs_bind.
  - apply runs_bind; [| intros ?; apply runs_ret].
    apply runs_bind; [| intros ?; apply runs_ret].
    apply runs_mapM. intros d.
    apply runs_bind; [apply runs_client_get | intros ?; apply runs_ret].
  - intros ys. apply runs_bind; [apply runs_write_yaml |].
    intros ?; apply runs_ret.
Qed.

Lemma runs_get_desired_permissions P : runs P get_desired_permissions.
Proof.
  intros w. unfold get_desired_permissions.
  destruct (desired_file w) as [exc|doc].
  - apply (runs_bind P (print exc) (λ _, lift _));
      [apply runs_print | intros _; apply runs_lift].
  - apply (runs_ret P doc).
Qed.

Lemma runs_get_permissions_diff_df : runs is_fetch get_permissions_diff_df.
Proof.
  apply runs_bind.
  { apply runs_bind; [apply runs_get_current_permissions |].
    intros ?; apply runs_ret. }
  intros cur. apply runs_bind; [| intros ?; apply runs_lift].
  apply runs_bind; [apply runs_get_desired_permissions | intros doc].
  apply runs_bind; [apply runs_lift | intros ?; apply runs_ret].
Qed.

Lemma runs_permission_call mk d r :
  runs (λ q, ∃ d' args, q = mk d' args) (permission_call mk d r).
Proof.
  apply runs_bind; [apply runs_lift | intros args].
  apply runs_client_call. eauto.
Qed.

Lemma runs_apply mk (sel : list (domain * list (gmap string cell))) :
  runs (λ q, ∃ d' args, q = mk d' args)
       (for_each sel (λ p, for_each p.2 (permission_call mk p.1))).
Proof.
  apply runs_for_each. intros p. apply runs_for_each. intros r.
  apply runs_permission_call.
Qed.

(** A loop that ends normally has made every planned call. *)
Lemma rows_loop_ok mk d rs w w' :
  for_each rs (permission_call mk d) w = (Ok (), w') →
  trace w' = trace w ++ planned mk [(d, rs)].
Proof.
  revert w. induction rs as [|r rs IH]; intros w; cbn.
  - intros [= <-]. unfold planned; cbn. by rewrite app_nil_r.
  - intros H. apply bind_ok_inv in H as ([] & w1 & H1 & H2).
    apply IH in H2. unfold permission_call in H1.
    apply bind_ok_inv in H1 as (args & w0 & Ha & Hc).
    unfold lift in Ha. injection Ha as Ha <-.
    unfold planned in *; cbn in *. rewrite Ha; cbn.
    rewrite app_nil_r in *.
    pose proof (client_call_extends (mk d args) w) as (Ht & _).
    rewrite Hc in Ht; cbn in Ht. by rewrite H2, Ht, <- (assoc_L (++)).
Qed.

Lemma apply_loop_ok mk (sel : list (domain * list (gmap string cell))) w w' :
  for_each sel (λ p, for_each p.2 (permission_call mk p.1)) w = (Ok (), w') →
  trace w' = trace w ++ planned mk sel.
Proof.
  revert w. induction sel as [|[d rs] sel IH]; intros w; cbn.
  - intros [= <-]. by rewrite app_nil_r.
  - intros H. apply bind_ok_inv in H as ([] & w1 & H1 & H2).
    apply rows_loop_ok in H1. apply IH in H2.
    rewrite H2, H1. unfold planned; cbn. rewrite app_nil_r.
    by rewrite <- (assoc_L (++)).
Qed.

Lemma runs_update_permissions : runs (λ _, True) update_permissions.
Proof.
  apply runs_bind.
  { eapply runs_mono; [| apply runs_get_permissions_diff_df]. done. }
  intros diff. apply runs_bind.
  { eapply runs_mono; [| apply (runs_apply Grant)]. done. }
  intros _. apply runs_bind; [| intros _; apply runs_ret].
  eapply runs_mono; [| apply (runs_apply Revoke)]. done.
Qed.

(** C3: within [update_permissions], every add call precedes every
    remove call: the calls of a run are the fetches, then grants only,
    then revokes only; when the run ends normally the grants are those of
    the added rows and the revokes those of the removed rows, so within
    every domain (and for one subject in particular) grants come first. *)
Theorem grants_before_revokes (w : world) :
  ∃ fs gs rs,
    trace (update_permissions w).2 = trace w ++ fs ++ gs ++ rs
    ∧ Forall is_fetch fs ∧ Forall is_grant gs ∧ Forall is_revoke rs
    ∧ ∀ added removed,
        (update_permissions w).1 = Ok (added, removed) →
        gs = planned Grant added ∧ rs = planned Revoke removed.
Proof.
  unfold update_permissions. rewrite bind_run.
  destruct (runs_get_permissions_diff_df w) as (fs & (Hfs & _) & Hfetch & _).
  destruct (get_permissions_diff_df w) as [[diff|e] w1]; cbn in Hfs; last first.
  { exists fs, [], []. rewrite !app_nil_r. cbn. by repeat split. }
  set (added := selected "right_only" diff).
  set (removed := selected "left_only" diff).
  rewrite bind_run.
  destruct (runs_apply Grant added w1) as (gs & (Hgs & _) & Hgrant & _).
  pose proof (apply_loop_ok Grant added w1) as Hgok.
  change (for_each added (λ p, for_each p.2 (add_permission p.1)))
    with (for_each added (λ p, for_each p.2 (permission_call Grant p.1))).
  destruct (for_each added _ w1) as [[[]|e] w2]; cbn in Hgs; last first.
  { exists fs, gs, []. rewrite app_nil_r. cbn. rewrite Hgs, Hfs.
    rewrite <- (assoc_L (++)). by repeat split. }
  specialize (Hgok w2 eq_refl). rewrite Hgs in Hgok.
  apply app_inv_head in Hgok as ->.
  rewrite bind_run.
  destruct (runs_apply Revoke removed w2) as (rs & (Hrs & _) & Hrevoke & _).
  pose proof (apply_loop_ok Revoke removed w2) as Hrok.
  change (for_each removed (λ p, for_each p.2 (remove_permission p.1)))
    with (for_each removed (λ p, for_each p.2 (permission_call Revoke p.1))).
  destruct (for_each removed _ w2) as [[[]|e] w3]; cbn in Hrs.
  - specialize (Hrok w3 eq_refl). rewrite Hrs in Hrok.
    apply app_inv_head in Hrok as ->.
    exists fs, (planned Grant added), (planned Revoke removed). cbn.
    rewrite Hrs, Hgs, Hfs, <- !(assoc_L (++)).
    repeat split; [done | done | done | congruence | congruence].
  - exists fs, (planned Grant added), rs. cbn.
    rewrite Hrs, Hgs, Hfs, <- !(assoc_L (++)). by repeat split.
Qed.

(** ** Fetching the current state *)

Lemma client_get_ok w d :
  fails w (trace w) (Fetch d) = false →
  client_get d w = (Ok (store w d), with_trace w (trace w ++ [Fetch d])).
Proof.
  intros H. unfold client_get. rewrite bind_run. unfold client_call.
  by rewrite H.
Qed.

Lemma client_get_fail w d :
  fails w (trace w) (Fetch d) = true →
  client_get d w
  = (Raise (ClientError (Fetch d)), with_trace w (trace w ++ [Fetch d])).
Proof.
  intros H. unfold client_get. rewrite bind_run. unfold client_call.
  by rewrite H.
Qed.

Lemma fetch_all_ok ds w :
  fetch_available w →
  mapM (λ d, es ← client_get d; mret (d, es)) ds w
  = (Ok ((λ d, (d, store w d)) <$> ds),
     with_trace w (trace w ++ (Fetch <$> ds))).
Proof.
  intros Hav. revert w Hav. induction ds as [|d ds IH]; intros w Hav.
  - cbn. unfold mret, M_ret, with_trace. rewrite app_nil_r. by destruct w.
  - cbn. rewrite bind_run, bind_run, client_get_ok by apply Hav.
    cbn. rewrite bind_run, IH by exact Hav. cbn.
    unfold with_trace; cbn. by rewrite <- (assoc_L (++)).
Qed.

Lemma get_current_permissions_df_ok w :
  fetch_available w →
  get_current_permissions_df w = (Ok (current_frames (store w)), fetched w).
Proof.
  intros Hav. unfold get_current_permissions_df, get_current_permissions,
    BambooAccess.write_all_permissions_df_yaml,
    BambooAccess.get_all_permissions_df_yaml,
    BambooAccess.get_all_permissions_df, BambooAccess.get_all_permissions.
  rewrite !bind_run, fetch_all_ok by done. cbn. done.
Qed.

(** ** The desired permissions file *)

(** C5 (amended): when the desired permissions file does not parse, the
    loader catches the parser's error and prints it; what reaches the
    caller is not the parse error. *)
Theorem parse_error_caught (w : world) (exc : string) :
  desired_file w = inl exc →
  stdout (get_desired_permissions w).2 = stdout w ++ [exc]
  ∧ ∀ msg, (get_desired_permissions w).1 ≠ Raise (YAMLError msg).
Proof.
  intros H. unfold get_desired_permissions. rewrite H. cbn. done.
Qed.

Lemma parse_error_caught_witness :
  stdout (get_desired_permissions world_parse_error).2
  = stdout world_parse_error ++ ["mapping values are not allowed here"]
  ∧ ∀ msg, (get_desired_permissions world_parse_error).1
           ≠ Raise (YAMLError msg).
Proof.
  apply (parse_error_caught world_parse_error). reflexivity.
Defined.

(** C5, as the spec has it, fails: on a file that does not parse the
    loader does not end with the parse error; the error was printed and
    the exception that leaves the loader is another one. *)
Lemma parse_error_not_propagated :
  (get_desired_permissions world_parse_error).1
  = Raise (UnboundLocalError "desired_permissions_df_yaml")
  ∧ stdout (get_desired_permissions world_parse_error).2
    = ["mapping values are not allowed here"]
  ∧ ¬ ∃ msg, (get_desired_permissions world_parse_error).1
             = Raise (YAMLError msg).
Proof.
  split; [reflexivity|]. split; [reflexivity|]. intros [msg H]. discriminate.
Qed.

(** ** The report writers *)

Lemma write_added_run f w :
  write_permissions_diff_df_yaml_added f w
  = match update_permissions w with
    | (Ok u, w') => (Ok u.1, with_file w' f (keyed "_diff_added" u.1))
    | (Raise e, w') => (Raise e, w')
    end.
Proof.
  unfold write_permissions_diff_df_yaml_added. rewrite bind_run.
  by destruct (update_permissions w) as [[u|e] w'].
Qed.

Lemma write_removed_run f w :
  write_permissions_diff_df_yaml_removed f w
  = match update_permissions w with
    | (Ok u, w') => (Ok u.2, with_file w' f (keyed "_diff_removed" u.2))
    | (Raise e, w') => (Raise e, w')
    end.
Proof.
  unfold write_permissions_diff_df_yaml_removed. rewrite bind_run.
  by destruct (update_permissions w) as [[u|e] w'].
Qed.

Lemma write_yaml_run name doc w :
  write_yaml name doc w = (Ok (), with_file w name doc).
Proof. reflexivity. Qed.

(** In the replacement scenario the plain diff report only fetches, the
    added-report writer grants and revokes, and the main program fetches
    three times: for the diff report and for each of its two runs of
    [update_permissions] (the second of which finds nothing left to
    apply on a server that took the calls of the first). *)
Example report_writer_calls :
  let g := Grant Global [VStr "VIEW"; VStr "USER"; VStr "jdoe"] in
  let r := Revoke Global [VStr "EDIT"; VStr "USER"; VStr "jdoe"] in
  trace (write_permissions_diff_df_yaml "permissions_diff.yaml"
           world_replace).2
  = (Fetch <$> domains)
  ∧ trace (write_permissions_diff_df_yaml_added
             "permissions_diff_added.yaml" world_replace).2
    = (Fetch <$> domains) ++ [g; r]
  ∧ trace (main world_replace).2
    = (Fetch <$> domains) ++ (Fetch <$> domains) ++ [g; r]
      ++ (Fetch <$> domains).
Proof. cbn zeta. split; [|split]; vm_compute; reflexivity. Qed.

(** ** Frames *)

Lemma lookup_fill cols (r : gmap string cell) k :
  fill cols r !! k
  = match r !! k with
    | Some c => Some c
    | None => if decide (k ∈ cols) then Some NaN else None
    end.
Proof.
  unfold fill. rewrite lookup_union.
  destruct (r !! k) as [c|] eqn:Hr.
  - by destruct (gset_to_gmap NaN cols !! k).
  - rewrite (left_id_L None (∪)). case_decide as Hk.
    + by apply lookup_gset_to_gmap_Some.
    + by apply lookup_gset_to_gmap_None.
Qed.

Lemma dom_fill cols (r : gmap string cell) :
  dom (fill cols r) = dom r ∪ cols.
Proof. unfold fill. by rewrite dom_union_L, dom_gset_to_gmap. Qed.

Lemma fill_id cols (r : gmap string cell) : cols ⊆ dom r → fill cols r = r.
Proof.
  intros Hsub. apply map_eq. intros k. rewrite lookup_fill.
  destruct (r !! k) as [c|] eqn:Hr; [done|]. case_decide; [|done].
  apply not_elem_of_dom in Hr. set_solver.
Qed.

Lemma columns_pd_DataFrame es e :
  e ∈ es → dom e ⊆ columns (pd_DataFrame es).
Proof.
  intros Hin. cbn. intros k Hk. apply elem_of_union_list.
  exists (dom e). split; [|done]. apply list_elem_of_fmap. eauto.
Qed.

Lemma rows_pd_DataFrame_dom es x :
  x ∈ rows (pd_DataFrame es) → dom x = columns (pd_DataFrame es).
Proof.
  cbn. intros (e & -> & Hin)%list_elem_of_fmap. rewrite dom_fill.
  pose proof (columns_pd_DataFrame es e Hin) as Hsub. cbn in Hsub.
  set_solver.
Qed.

(** Entries that all have the columns [S] make a frame with these
    columns and these rows. *)
Lemma pd_DataFrame_uniform (S : gset string) es :
  es ≠ [] → Forall (λ e, dom e = S) es →
  pd_DataFrame es = {| columns := S; rows := es |}.
Proof.
  intros Hne Hall.
  assert (⋃ (dom <$> es) = S) as Hcols.
  { destruct es as [|e es]; [done|]. clear Hne.
    apply set_eq. intros k. rewrite elem_of_union_list. split.
    - intros (X & (e' & -> & Hin)%list_elem_of_fmap & Hk).
      by rewrite (proj1 (list.Forall_forall _ _) Hall e' Hin) in Hk.
    - intros Hk. exists (dom e). split; [set_solver|].
      by rewrite (Forall_inv Hall). }
  unfold pd_DataFrame. rewrite Hcols. f_equal.
  rewrite <- (list_fmap_id es) at 2. apply Forall_fmap_ext_1.
  eapply Forall_impl; [|exact Hall]. intros e He. cbn.
  apply fill_id. by rewrite He.
Qed.


(** ** The outer merge *)

Lemma lookup_tag_merge t (r : gmap string cell) :
  tag t r !! "_merge" = Some (VStr t).
Proof. apply lookup_insert_eq. Qed.

Lemma lookup_tag_ne t (r : gmap string cell) k :
  k ≠ "_merge" → tag t r !! k = r !! k.
Proof. intros Hk. unfold tag. by rewrite lookup_insert_ne. Qed.

Lemma merge_ok_inv left right df :
  merge_outer_indicator left right = Ok df →
  columns left ∩ columns right ≠ ∅
  ∧ columns left ∪ columns right ## reserved
  ∧ hashable_keys (columns left ∩ columns right) left
  ∧ hashable_keys (columns left ∩ columns right) right
  ∧ df = {| columns := columns left ∪ columns right ∪ {[ "_merge" ]};
            rows := (rows left
                     ≫= left_rows (columns left ∩ columns right)
                          (columns right) (rows right))
                    ++ right_only_rows (columns left ∩ columns right)
                         (columns left) (rows left) (rows right) |}.
Proof.
  unfold merge_outer_indicator. cbn zeta. intros H.
  repeat case_decide; try discriminate. injection H as <-. naive_solver.
Qed.

(** Where the rows of a left row come from. *)
Lemma elem_of_left_rows K cr right l x :
  x ∈ left_rows K cr right l ↔
  (x = tag "left_only" (fill cr l) ∧ ∀ r, r ∈ right → ¬ agree K l r)
  ∨ (∃ r, r ∈ right ∧ agree K l r ∧ x = tag "both" (l ∪ r)).
Proof.
  unfold left_rows.
  destruct (filter (agree K l) right) as [|m ms] eqn:Hf.
  - rewrite list_elem_of_singleton. split.
    + intros ->. left. split; [done|]. intros r Hr Ha.
      assert (r ∈ filter (agree K l) right) as Hin
        by (by apply list_elem_of_filter).
      rewrite Hf in Hin. by apply elem_of_nil in Hin.
    + intros [[-> _]|(r & Hr & Ha & _)]; [done|].
      assert (r ∈ filter (agree K l) right) as Hin
        by (by apply list_elem_of_filter).
      rewrite Hf in Hin. by apply elem_of_nil in Hin.
  - rewrite <- Hf. rewrite list_elem_of_fmap. split.
    + intros (r & -> & [Ha Hr]%list_elem_of_filter). right. eauto.
    + intros [[_ Hno]|(r & Hr & Ha & ->)].
      * assert (m ∈ filter (agree K l) right) as [Ha Hm]%list_elem_of_filter
          by (rewrite Hf; left).
        by destruct (Hno m).
      * exists r. split; [done|]. by apply list_elem_of_filter.
Qed.

Lemma elem_of_right_only_rows K cl left right x :
  x ∈ right_only_rows K cl left right ↔
  ∃ r, r ∈ right ∧ (∀ l, l ∈ left → ¬ agree K l r)
       ∧ x = tag "right_only" (fill cl r).
Proof.
  unfold right_only_rows. rewrite list_elem_of_fmap. split.
  - intros (r & -> & [Hno Hr]%list_elem_of_filter). exists r.
    split; [done|]. split; [|done]. intros l Hl Ha. apply Hno.
    apply Exists_exists. exists l. split; [|done]. by apply list_elem_of_In.
  - intros (r & Hr & Hno & ->). exists r. split; [done|].
    apply list_elem_of_filter. split; [|done].
    intros (l & Hl & Ha)%Exists_exists. apply (Hno l); [|done].
    by apply list_elem_of_In.
Qed.

(** The rows of a merged frame that carry the indicator [t]. *)
Lemma elem_of_mask_merge t df x :
  x ∈ rows (mask_merge t df) ↔ x ∈ rows df ∧ x !! "_merge" = Some (VStr t).
Proof. unfold mask_merge; cbn. rewrite list_elem_of_filter. tauto. Qed.

Lemma merge_right_only left right df x :
  merge_outer_indicator left right = Ok df →
  x ∈ rows (mask_merge "right_only" df) ↔
  ∃ r, r ∈ rows right
       ∧ (∀ l, l ∈ rows left
               → ¬ agree (columns left ∩ columns right) l r)
       ∧ x = tag "right_only" (fill (columns left) r).
Proof.
  intros (_ & _ & _ & _ & ->)%merge_ok_inv.
  rewrite elem_of_mask_merge; cbn. rewrite elem_of_app, list_elem_of_bind.
  setoid_rewrite elem_of_left_rows. rewrite elem_of_right_only_rows. split.
  - intros [[(l & [[-> _]|(r & _ & _ & ->)] & _)|Hr] Hm];
      [by rewrite lookup_tag_merge in Hm ..| done].
  - intros (r & Hr & Hno & ->). split; [right; eauto|].
    apply lookup_tag_merge.
Qed.

Lemma merge_left_only left right df x :
  merge_outer_indicator left right = Ok df →
  x ∈ rows (mask_merge "left_only" df) ↔
  ∃ l, l ∈ rows left
       ∧ (∀ r, r ∈ rows right
               → ¬ agree (columns left ∩ columns right) l r)
       ∧ x = tag "left_only" (fill (columns right) l).
Proof.
  intros (_ & _ & _ & _ & ->)%merge_ok_inv.
  rewrite elem_of_mask_merge; cbn. rewrite elem_of_app, list_elem_of_bind.
  setoid_rewrite elem_of_left_rows. rewrite elem_of_right_only_rows. split.
  - intros [[(l & [[-> Hno]|(r & _ & _ & ->)] & Hl)|(r & _ & _ & ->)] Hm];
      [eauto | by rewrite lookup_tag_merge in Hm ..].
  - intros (l & Hl & Hno & ->). split; [|apply lookup_tag_merge].
    left. exists l. split; [|done]. by left.
Qed.

Lemma merge_both left right df x :
  merge_outer_indicator left right = Ok df →
  x ∈ rows (mask_merge "both" df) ↔
  ∃ l r, l ∈ rows left ∧ r ∈ rows right
         ∧ agree (columns left ∩ columns right) l r
         ∧ x = tag "both" (l ∪ r).
Proof.
  intros (_ & _ & _ & _ & ->)%merge_ok_inv.
  rewrite elem_of_mask_merge; cbn. rewrite elem_of_app, list_elem_of_bind.
  setoid_rewrite elem_of_left_rows. rewrite elem_of_right_only_rows. split.
  - intros [[(l & [[-> Hno]|(r & Hr & Ha & ->)] & Hl)|(r & _ & _ & ->)] Hm];
      [by rewrite lookup_tag_merge in Hm | eauto 10
      | by rewrite lookup_tag_merge in Hm].
  - intros (l & r & Hl & Hr & Ha & ->). split; [|apply lookup_tag_merge].
    left. exists l. split; [|done]. right. eauto.
Qed.

(** ** The comparison key *)

Lemma frame_of_ok r : succeeded r = true → r = Ok (frame_of r).
Proof. by destruct r. Qed.

Lemma agree_lookup K (l r : gmap string cell) k :
  agree K l r → k ∈ K → l !! k = r !! k.
Proof. intros Ha Hk. by apply Ha. Qed.

(** C7 (amended): the diff compares two records on every column their
    frames share, [value] included.  When both frames have a [value]
    column, the records of an unchanged row have equal [value] cells, and
    a record whose [value] differs from that of every record on the
    other side is classified removed (current) or added (desired). *)
Theorem value_column_is_compared (cur des df : DataFrame) :
  merge_outer_indicator cur des = Ok df →
  "value" ∈ columns cur → "value" ∈ columns des →
  (∀ x, x ∈ rows (mask_merge "both" df) →
        ∃ l r, l ∈ rows cur ∧ r ∈ rows des
               ∧ x = tag "both" (l ∪ r)
               ∧ l !! "value" = r !! "value")
  ∧ (∀ l, l ∈ rows cur →
          (∀ r, r ∈ rows des → l !! "value" ≠ r !! "value") →
          tag "left_only" (fill (columns des) l)
            ∈ rows (mask_merge "left_only" df))
  ∧ (∀ r, r ∈ rows des →
          (∀ l, l ∈ rows cur → l !! "value" ≠ r !! "value") →
          tag "right_only" (fill (columns cur) r)
            ∈ rows (mask_merge "right_only" df)).
Proof.
  intros Hm Hc Hd.
  assert ("value" ∈ columns cur ∩ columns des) as HK by set_solver.
  split; [|split].
  - intros x (l & r & Hl & Hr & Ha & ->)%(merge_both _ _ _ _ Hm).
    exists l, r. split_and!; [done..|]. by apply (agree_lookup _ _ _ _ Ha).
  - intros l Hl Hne. apply (merge_left_only _ _ _ _ Hm).
    exists l. split_and!; [done| |done]. intros r Hr Ha.
    apply (Hne r Hr). by apply (agree_lookup _ _ _ _ Ha).
  - intros r Hr Hne. apply (merge_right_only _ _ _ _ Hm).
    exists r. split_and!; [done| |done]. intros l Hl Ha.
    apply (Hne l Hl). by apply (agree_lookup _ _ _ _ Ha).
Qed.

Lemma value_column_is_compared_witness :
  let cur := pd_DataFrame [valued true] in
  let des := pd_DataFrame [valued false] in
  let df := frame_of (merge_outer_indicator cur des) in
  (∀ x, x ∈ rows (mask_merge "both" df) →
        ∃ l r, l ∈ rows cur ∧ r ∈ rows des
               ∧ x = tag "both" (l ∪ r)
               ∧ l !! "value" = r !! "value")
  ∧ (∀ l, l ∈ rows cur →
          (∀ r, r ∈ rows des → l !! "value" ≠ r !! "value") →
          tag "left_only" (fill (columns des) l)
            ∈ rows (mask_merge "left_only" df))
  ∧ (∀ r, r ∈ rows des →
          (∀ l, l ∈ rows cur → l !! "value" ≠ r !! "value") →
          tag "right_only" (fill (columns cur) r)
            ∈ rows (mask_merge "right_only" df)).
Proof.
  apply (value_column_is_compared (pd_DataFrame [valued true])
           (pd_DataFrame [valued false])).
  - apply frame_of_ok. vm_compute. reflexivity.
  - by_compute.
  - by_compute.
Defined.

(** C7, as the spec has it, fails: two global records for the same user
    and permission that differ in [value] only are not unchanged; the
    current one is removed and the desired one is added. *)
Lemma value_difference_is_a_change :
  delete "value" (valued true) = delete "value" (valued false)
  ∧ (∃ df, merge_outer_indicator (pd_DataFrame [valued true])
             (pd_DataFrame [valued false]) = Ok df)
  ∧ (λ t, rows (mask_merge t
                  (frame_of (merge_outer_indicator
                               (pd_DataFrame [valued true])
                               (pd_DataFrame [valued false])))))
      <$> ["both"; "left_only"; "right_only"]
    = [[]; [tag "left_only" (valued true)];
       [tag "right_only" (valued false)]].
Proof.
  split; [by_compute|]. split; [|by_compute].
  eexists. apply frame_of_ok. vm_compute. reflexivity.
Qed.

(** ** Loading and fetching records *)

Lemma carried_fill cols (e : gmap string cell) : carried e (fill cols e).
Proof.
  split.
  - apply map_subseteq_spec. intros k c Hk. by rewrite lookup_fill, Hk.
  - intros k c. rewrite lookup_fill. destruct (e !! k); [done|].
    case_decide; congruence.
Qed.

Lemma carried_populated e x k : carried e x → populated k x ↔ populated k e.
Proof.
  intros [Hsub Hback]. split; intros (c & Hc & Hne); exists c.
  - split; [|done]. by apply Hback.
  - split; [|done]. by eapply lookup_weaken.
Qed.

Lemma pd_DataFrame_carried es :
  Forall2 carried es (rows (pd_DataFrame es)).
Proof.
  cbn. apply Forall2_fmap_r, Forall_Forall2_diag, list.Forall_forall.
  intros e _. apply carried_fill.
Qed.

Lemma desired_entries_ok (doc : gmap string (list (gmap string cell))) :
  (∀ d, is_Some (doc !! yaml_key d)) →
  desired_entries doc
  = Ok ((λ d, (d, default [] (doc !! yaml_key d))) <$> domains).
Proof.
  intros H. unfold desired_entries, domains.
  pose proof (H Global) as [? H1]. pose proof (H BuildPlan) as [? H2].
  pose proof (H Project) as [? H3]. pose proof (H Deployment) as [? H4].
  pose proof (H DeploymentProject) as [? H5].
  pose proof (H DeploymentEnvironment) as [? H6].
  cbn in *. by rewrite H1, H2, H3, H4, H5, H6.
Qed.

Lemma get_desired_permissions_df_ok w doc :
  desired_file w = inr doc →
  (∀ d, is_Some (doc !! yaml_key d)) →
  get_desired_permissions_df w
  = (Ok ((λ d, (d, pd_DataFrame (default [] (doc !! yaml_key d))))
           <$> domains), w).
Proof.
  intros Hf Hk. unfold get_desired_permissions_df.
  rewrite bind_run. unfold get_desired_permissions at 1. rewrite Hf.
  rewrite bind_run. unfold lift. by rewrite desired_entries_ok.
Qed.

Lemma elem_of_domains d : d ∈ domains.
Proof. destruct d; set_solver. Qed.

(** C8 (amended): the loader does not expand permission lists.  For a
    document with the six domain keys it returns, per domain, a frame
    with exactly one row per entry of the document: the entry itself,
    permission list included, completed with [NaN] only.  No record per
    permission and no [value] cell is created. *)
Theorem loader_keeps_one_row_per_entry (w : world)
    (doc : gmap string (list (gmap string cell))) :
  desired_file w = inr doc →
  (∀ d, is_Some (doc !! yaml_key d)) →
  ∃ dfs, get_desired_permissions_df w = (Ok dfs, w)
         ∧ ∀ d es, doc !! yaml_key d = Some es →
                   ∃ df, (d, df) ∈ dfs ∧ Forall2 carried es (rows df).
Proof.
  intros Hf Hk. eexists. split; [by apply get_desired_permissions_df_ok|].
  intros d es Hes. exists (pd_DataFrame es). split.
  - apply list_elem_of_fmap. exists d. rewrite Hes. split; [done|].
    apply elem_of_domains.
  - apply pd_DataFrame_carried.
Qed.

Lemma loader_keeps_one_row_per_entry_witness :
  ∃ dfs, get_desired_permissions_df world_documented
         = (Ok dfs, world_documented)
         ∧ ∀ d es, documented_example !! yaml_key d = Some es →
                   ∃ df, (d, df) ∈ dfs ∧ Forall2 carried es (rows df).
Proof.
  apply (loader_keeps_one_row_per_entry world_documented documented_example).
  - reflexivity.
  - intros d. destruct d; by_compute.
Defined.

(** C8, as the spec has it, fails on the example document of the source:
    its global entries list five and four permissions, and the loader
    returns two global rows, not nine, in a frame without a [value]
    column; every other domain has one row. *)
Lemma permission_lists_not_expanded :
  documented_example !! "global_permissions"
  = Some [subject "admin" ["ADMINISTER"; "BUILD"; "CLONE"; "EDIT"; "VIEW"];
          subject "jdoe" ["BUILD"; "CLONE"; "EDIT"; "VIEW"]]
  ∧ (λ p : domain * DataFrame,
       (p.1, length (rows p.2), bool_decide ("value" ∈ columns p.2)))
      <$> frames_of (get_desired_permissions_df world_documented).1
    = [(Global, 2, false); (BuildPlan, 1, false); (Project, 1, false);
       (Deployment, 1, false); (DeploymentProject, 1, false);
       (DeploymentEnvironment, 1, false)].
Proof. split; by_compute. Qed.

(** ** The diff as a set difference *)

Lemma agree_eq (S : gset string) (l r : gmap string cell) :
  dom l = S → dom r = S → agree S l r ↔ l = r.
Proof.
  intros Hl Hr. split; [|by intros ->].
  intros Ha. apply map_eq. intros k. destruct (decide (k ∈ S)) as [Hk|Hk].
  - by apply Ha.
  - assert (l !! k = None) as -> by (apply not_elem_of_dom; by rewrite Hl).
    symmetry. apply not_elem_of_dom. by rewrite Hr.
Qed.

Lemma tag_inj t (r r' : gmap string cell) :
  "_merge" ∉ dom r → "_merge" ∉ dom r' → tag t r = tag t r' → r = r'.
Proof.
  intros Hr Hr' Heq. apply not_elem_of_dom in Hr, Hr'.
  rewrite <- (delete_insert_id r "_merge" (VStr t)) by done.
  rewrite <- (delete_insert_id r' "_merge" (VStr t)) by done.
  unfold tag in Heq. by rewrite Heq.
Qed.

(** What C1 says holds when both record sets are non-empty and of one
    shape: a record is added exactly when it is desired and not current,
    removed exactly when it is current and not desired, and unchanged
    exactly when it is both. *)
Lemma diff_of_uniform_records (S : gset string)
    (current desired : list (gmap string cell)) (df : DataFrame) :
  current ≠ [] → desired ≠ [] →
  Forall (λ e, dom e = S) current →
  Forall (λ e, dom e = S) desired →
  merge_outer_indicator (pd_DataFrame current) (pd_DataFrame desired)
  = Ok df →
  ∀ r, dom r = S →
    (tag "right_only" r ∈ rows (mask_merge "right_only" df)
     ↔ r ∈ desired ∧ r ∉ current)
    ∧ (tag "left_only" r ∈ rows (mask_merge "left_only" df)
       ↔ r ∈ current ∧ r ∉ desired)
    ∧ (tag "both" r ∈ rows (mask_merge "both" df)
       ↔ r ∈ current ∧ r ∈ desired).
Proof.
  intros Hc Hd Hcs Hds Hm r Hr.
  rewrite (pd_DataFrame_uniform S current) in Hm by done.
  rewrite (pd_DataFrame_uniform S desired) in Hm by done.
  pose proof (merge_ok_inv _ _ _ Hm) as (_ & Hres & _); cbn in Hres.
  assert (∀ e : gmap string cell, dom e = S → "_merge" ∉ dom e) as Hnm.
  { intros e ->. unfold reserved in Hres. set_solver. }
  assert (∀ e : gmap string cell, dom e = S → fill S e = e) as Hfill.
  { intros e He. apply fill_id. by rewrite He. }
  pose proof (proj1 (list.Forall_forall _ _) Hcs) as Hcd.
  pose proof (proj1 (list.Forall_forall _ _) Hds) as Hdd.
  rewrite (merge_right_only _ _ _ _ Hm), (merge_left_only _ _ _ _ Hm),
    (merge_both _ _ _ _ Hm). cbn.
  replace (S ∩ S) with S by set_solver.
  split_and!; split.
  - intros (e & He & Hno & Heq). rewrite Hfill in Heq by auto.
    apply tag_inj in Heq as ->; auto. split; [done|].
    intros Hin. apply (Hno e Hin). by apply agree_eq; auto.
  - intros [Hin Hnot]. exists r. split_and!; [done| |by rewrite Hfill].
    intros l Hl Ha. apply agree_eq in Ha as ->; auto.
  - intros (e & He & Hno & Heq). rewrite Hfill in Heq by auto.
    apply tag_inj in Heq as ->; auto. split; [done|].
    intros Hin. apply (Hno e Hin). by apply agree_eq; auto.
  - intros [Hin Hnot]. exists r. split_and!; [done| |by rewrite Hfill].
    intros e He Ha. apply agree_eq in Ha as ->; auto.
  - intros (l & e & Hl & He & Ha & Heq).
    apply agree_eq in Ha as ->; auto. rewrite (idemp_L (∪)) in Heq.
    apply tag_inj in Heq as ->; auto.
  - intros [Hin Hin']. exists r, r. split_and!; [done|done| |].
    + by apply agree_eq; auto.
    + by rewrite (idemp_L (∪)).
Qed.

(** The merge of the frames of an empty record set and of any other
    record set has no key to join on. *)
Lemma merge_empty_record_set (es : list (gmap string cell)) :
  merge_outer_indicator (pd_DataFrame es) (pd_DataFrame []) = Raise MergeError
  ∧ merge_outer_indicator (pd_DataFrame []) (pd_DataFrame es)
    = Raise MergeError.
Proof.
  unfold merge_outer_indicator; cbn. split; rewrite decide_True; set_solver.
Qed.

(** C1 fails in Scenario B of the spec (global domain): the server holds
    one global permission and the desired document lists none.  The
    claim has the record removed; the merge of the two frames raises
    instead, [update_permissions] ends with that exception after the
    fetches, and no revoke call is made. *)
Theorem empty_desired_set_has_no_diff :
  merge_outer_indicator (pd_DataFrame [entry Global "admin" "BUILD"])
    (pd_DataFrame [])
  = Raise MergeError
  ∧ (update_permissions world_revoke_all).1 = Raise MergeError
  ∧ trace (update_permissions world_revoke_all).2 = (Fetch <$> domains).
Proof.
  split; [apply merge_empty_record_set|]. split; vm_compute; reflexivity.
Qed.

(** ** The server after the apply loops *)

Lemma mapM_result_cons {A B} (f : A → result B) x l :
  mapM f (x :: l)
  = match f x with
    | Ok y => match mapM f l with
              | Ok k => Ok (y :: k)
              | Raise e => Raise e
              end
    | Raise e => Raise e
    end.
Proof. cbn. destruct (f x); [|done]. cbn. by destruct (mapM f l). Qed.

Lemma subscripts_lookup cols (row : gmap string cell) args k :
  mapM (subscript row) cols = Ok args →
  (list_to_map (zip cols args) : gmap string cell) !! k
  = if decide (k ∈ cols) then row !! k else None.
Proof.
  revert args. induction cols as [|c cs IH]; intros args.
  - intros [= <-]. cbn. rewrite lookup_empty.
    case_decide as Hk; [by apply elem_of_nil in Hk|done].
  - rewrite mapM_result_cons. unfold subscript at 1.
    destruct (row !! c) as [x|] eqn:Hc; [|done].
    destruct (mapM (subscript row) cs) as [xs|] eqn:Hxs; [|done].
    intros [= <-]. cbn. destruct (decide (k = c)) as [->|Hne].
    + rewrite lookup_insert_eq, decide_True by set_solver. done.
    + rewrite lookup_insert_ne by done. rewrite (IH xs eq_refl).
      repeat case_decide; set_solver.
Qed.

Lemma subscripts_ok cols (row : gmap string cell) :
  (∀ k, k ∈ cols → is_Some (row !! k)) →
  ∃ args, mapM (subscript row) cols = Ok args.
Proof.
  induction cols as [|c cs IH]; intros H; [by eexists|].
  destruct (H c) as [x Hx]; [set_solver|].
  destruct IH as [xs Hxs]; [set_solver|].
  rewrite mapM_result_cons. unfold subscript at 1. rewrite Hx, Hxs.
  by eexists.
Qed.

(** The entry a call is about holds the cells of the diff row at the
    call's columns. *)
Lemma call_args_entry d row args :
  call_args d row = Ok args → entry_of d args = called_entry d row.
Proof.
  intros H. apply map_eq. intros k. unfold entry_of, called_entry.
  rewrite (subscripts_lookup _ _ _ _ H). apply option_eq. intros c.
  rewrite map_lookup_filter_Some. cbn. case_decide; naive_solver.
Qed.

Lemma call_args_ok d row :
  (∀ k, k ∈ call_columns d → is_Some (row !! k)) →
  ∃ args, call_args d row = Ok args.
Proof. apply subscripts_ok. Qed.

Lemma elem_of_grant_entry e es x : x ∈ grant_entry e es ↔ x ∈ es ∨ x = e.
Proof.
  unfold grant_entry. case_decide; [naive_solver|].
  rewrite elem_of_app, list_elem_of_singleton. done.
Qed.

Lemma elem_of_revoke_entry e es x : x ∈ revoke_entry e es ↔ x ∈ es ∧ x ≠ e.
Proof. unfold revoke_entry. rewrite list_elem_of_filter. tauto. Qed.

Lemma elem_of_served_grants gs s d x :
  Forall is_grant gs →
  x ∈ served_calls gs s d ↔
  x ∈ s d ∨ ∃ args, Grant d args ∈ gs ∧ x = entry_of d args.
Proof.
  intros Hgs. revert s. induction Hgs as [|q gs (d' & args' & ->) _ IH];
    intros s.
  - cbn. split; [by left|]. intros [?|(args & Hin & _)]; [done|].
    by apply elem_of_nil in Hin.
  - change (served_calls (Grant d' args' :: gs) s)
      with (served_calls gs (serve (Grant d' args') s)).
    rewrite IH. cbn. destruct (decide (d' = d)) as [->|Hne].
    + rewrite fn_lookup_insert, elem_of_grant_entry.
      setoid_rewrite elem_of_cons. naive_solver.
    + rewrite fn_lookup_insert_ne by done.
      setoid_rewrite elem_of_cons. naive_solver.
Qed.

Lemma elem_of_served_revokes rs s d x :
  Forall is_revoke rs →
  x ∈ served_calls rs s d ↔
  x ∈ s d ∧ ∀ args, Revoke d args ∈ rs → x ≠ entry_of d args.
Proof.
  intros Hrs. revert s. induction Hrs as [|q rs (d' & args' & ->) _ IH];
    intros s.
  - cbn. split; [|tauto]. intros H. split; [done|]. intros args Hin.
    by apply elem_of_nil in Hin.
  - change (served_calls (Revoke d' args' :: rs) s)
      with (served_calls rs (serve (Revoke d' args') s)).
    rewrite IH. cbn. destruct (decide (d' = d)) as [->|Hne].
    + rewrite fn_lookup_insert, elem_of_revoke_entry.
      setoid_rewrite elem_of_cons. naive_solver.
    + rewrite fn_lookup_insert_ne by done.
      setoid_rewrite elem_of_cons. naive_solver.
Qed.

Lemma elem_of_planned mk (sel : list (domain * list (gmap string cell))) q :
  q ∈ planned mk sel ↔
  ∃ d rs row args, (d, rs) ∈ sel ∧ row ∈ rs
                   ∧ call_args d row = Ok args ∧ q = mk d args.
Proof.
  unfold planned. rewrite list_elem_of_bind. split.
  - intros ([d rs] & (row & Hq & Hrow)%list_elem_of_bind & Hp). cbn in *.
    destruct (call_args d row) as [args|] eqn:Ha;
      [|by apply elem_of_nil in Hq].
    apply list_elem_of_singleton in Hq as ->. eauto 10.
  - intros (d & rs & row & args & Hp & Hrow & Ha & ->).
    exists (d, rs). split; [|done]. apply list_elem_of_bind. exists row.
    split; [|done]. cbn. rewrite Ha. by apply list_elem_of_singleton.
Qed.

(** The world after a loop of calls that ended normally. *)
Lemma rows_loop_world mk d rs w w' :
  for_each rs (permission_call mk d) w = (Ok (), w') →
  w' = World (served_calls (planned mk [(d, rs)]) (store w)) (fails w)
             (trace w ++ planned mk [(d, rs)]) (desired_file w) (files w)
             (stdout w).
Proof.
  revert w. induction rs as [|r rs IH]; intros w; cbn.
  - intros [= <-]. unfold planned; cbn. rewrite app_nil_r. by destruct w.
  - intros H. apply bind_ok_inv in H as ([] & w1 & H1 & H2).
    apply IH in H2. unfold permission_call in H1.
    apply bind_ok_inv in H1 as (args & w0 & Ha & Hc).
    unfold lift in Ha. injection Ha as Ha <-.
    unfold client_call in Hc.
    destruct (fails w (trace w) (mk d args)); [discriminate|].
    injection Hc as <-. rewrite H2. unfold planned; cbn. rewrite Ha; cbn.
    rewrite !app_nil_r. by rewrite <- (assoc_L (++)).
Qed.

Lemma apply_loop_world mk (sel : list (domain * list (gmap string cell)))
    w w' :
  for_each sel (λ p, for_each p.2 (permission_call mk p.1)) w = (Ok (), w') →
  w' = World (served_calls (planned mk sel) (store w)) (fails w)
             (trace w ++ planned mk sel) (desired_file w) (files w)
             (stdout w).
Proof.
  revert w. induction sel as [|[d rs] sel IH]; intros w; cbn.
  - intros [= <-]. rewrite app_nil_r. by destruct w.
  - intros H. apply bind_ok_inv in H as ([] & w1 & H1 & H2).
    apply rows_loop_world in H1. apply IH in H2. rewrite H2, H1; cbn.
    unfold planned, served_calls; cbn. rewrite !app_nil_r.
    by rewrite foldl_app, <- (assoc_L (++)).
Qed.

Lemma planned_grants sel : Forall is_grant (planned Grant sel).
Proof.
  apply list.Forall_forall. intros q (d & rs & row & args & _ & _ & _ & ->)%elem_of_planned.
  by exists d, args.
Qed.

Lemma planned_revokes sel : Forall is_revoke (planned Revoke sel).
Proof.
  apply list.Forall_forall. intros q (d & rs & row & args & _ & _ & _ & ->)%elem_of_planned.
  by exists d, args.
Qed.

(** ** What a computation leaves alone *)

Lemma keeps_ret {A B} (field : world → B) (a : A) : keeps field (mret a : M A).
Proof. by intros w. Qed.

Lemma keeps_lift {A B} (field : world → B) (r : result A) :
  keeps field (lift r).
Proof. by intros w. Qed.

Lemma keeps_bind {A B C} (field : world → C) (m : M A) (f : A → M B) :
  keeps field m → (∀ a, keeps field (f a)) → keeps field (m ≫= f).
Proof.
  intros Hm Hf w. rewrite bind_run. specialize (Hm w).
  destruct (m w) as [[a|e] w1]; cbn in *; [|done]. by rewrite Hf.
Qed.

Lemma keeps_mapM {A B C} (field : world → C) (f : A → M B) (l : list A) :
  (∀ x, keeps field (f x)) → keeps field (mapM f l).
Proof.
  intros Hf. induction l as [|x l IH]; cbn.
  - apply keeps_ret.
  - apply keeps_bind; [apply Hf | intros y].
    apply keeps_bind; [done | intros k; apply keeps_ret].
Qed.

Lemma keeps_for_each {A C} (field : world → C) (l : list A)
    (body : A → M unit) :
  (∀ x, keeps field (body x)) → keeps field (for_each l body).
Proof.
  intros Hb. induction l as [|x l IH]; cbn.
  - apply keeps_ret.
  - apply keeps_bind; [apply Hb | done].
Qed.

Lemma keeps_store_client_get d : keeps store (client_get d).
Proof.
  intros w. unfold client_get. rewrite bind_run. unfold client_call.
  by destruct (fails w (trace w) (Fetch d)).
Qed.

Lemma keeps_files_client_call q : keeps files (client_call q).
Proof. intros w. unfold client_call. by destruct (fails w (trace w) q). Qed.

Lemma keeps_stdout_client_call q : keeps stdout (client_call q).
Proof. intros w. unfold client_call. by destruct (fails w (trace w) q). Qed.

Lemma keeps_store_get_desired_permissions :
  keeps store get_desired_permissions.
Proof.
  intros w. unfold get_desired_permissions. by destruct (desired_file w).
Qed.

Lemma keeps_store_get_all_permissions :
  keeps store BambooAccess.get_all_permissions.
Proof.
  apply keeps_mapM. intros d.
  apply keeps_bind; [apply keeps_store_client_get | intros ?; apply keeps_ret].
Qed.

Lemma keeps_store_get_current_permissions :
  keeps store get_current_permissions.
Proof.
  apply keeps_bind.
  - apply keeps_bind; [| intros ?; apply keeps_ret].
    apply keeps_bind; [| intros ?; apply keeps_ret].
    apply keeps_store_get_all_permissions.
  - intros ys. apply keeps_bind; [by intros w | intros ?; apply keeps_ret].
Qed.

Lemma keeps_store_get_permissions_diff_df :
  keeps store get_permissions_diff_df.
Proof.
  apply keeps_bind.
  { apply keeps_bind; [apply keeps_store_get_current_permissions |].
    intros ?; apply keeps_ret. }
  intros cur. apply keeps_bind; [| intros ?; apply keeps_lift].
  apply keeps_bind; [apply keeps_store_get_desired_permissions | intros doc].
  apply keeps_bind; [apply keeps_lift | intros ?; apply keeps_ret].
Qed.

Lemma runs_write_permissions_diff_df_yaml f :
  runs is_fetch (write_permissions_diff_df_yaml f).
Proof.
  apply runs_bind.
  - apply runs_bind; [apply runs_get_permissions_diff_df |].
    intros ?; apply runs_ret.
  - intros ys. apply runs_bind; [apply runs_write_yaml |].
    intros ?; apply runs_ret.
Qed.

(** X1: the plain diff report only reads the server.  In every world, and
    whether it ends normally or not, [write_permissions_diff_df_yaml]
    makes fetch calls only and leaves the server's entries as they
    were. *)
Theorem diff_report_reads_only (output_file : string) (w : world) :
  store (write_permissions_diff_df_yaml output_file w).2 = store w
  ∧ ∃ fs, trace (write_permissions_diff_df_yaml output_file w).2
          = trace w ++ fs
          ∧ Forall is_fetch fs.
Proof.
  split.
  - revert w. apply keeps_bind.
    + apply keeps_bind; [apply keeps_store_get_permissions_diff_df |].
      intros ?; apply keeps_ret.
    + intros ys. apply keeps_bind; [by intros w | intros ?; apply keeps_ret].
  - destruct (runs_write_permissions_diff_df_yaml output_file w)
      as (fs & (Ht & _) & Hfs & _).
    by exists fs.
Qed.

(** ** [write_all_permissions_df_yaml] *)

(** X2: when no fetch fails, the export fetches the six domains in their
    fixed order, writes one file, and returns what it wrote: per domain,
    the records of the frame built from the fetched entries. *)
Theorem export_writes_fetched_records (output_file : string) (w : world) :
  fetch_available w →
  BambooAccess.write_all_permissions_df_yaml output_file w
  = (Ok ((λ d, (d, to_dict_records (pd_DataFrame (store w d)))) <$> domains),
     with_file (with_trace w (trace w ++ (Fetch <$> domains))) output_file
       (keyed "" ((λ d, (d, to_dict_records (pd_DataFrame (store w d))))
                    <$> domains))).
Proof.
  intros Hav. unfold BambooAccess.write_all_permissions_df_yaml,
    BambooAccess.get_all_permissions_df_yaml,
    BambooAccess.get_all_permissions_df, BambooAccess.get_all_permissions.
  rewrite !bind_run, fetch_all_ok by done. cbn. done.
Qed.

Lemma export_writes_fetched_records_witness :
  BambooAccess.write_all_permissions_df_yaml "permissions.yaml" world_replace
  = (Ok ((λ d, (d, to_dict_records (pd_DataFrame (store world_replace d))))
           <$> domains),
     with_file (with_trace world_replace
                  (trace world_replace ++ (Fetch <$> domains)))
       "permissions.yaml"
       (keyed "" ((λ d, (d, to_dict_records
                              (pd_DataFrame (store world_replace d))))
                    <$> domains))).
Proof.
  apply (export_writes_fetched_records "permissions.yaml" world_replace).
  intros h d. reflexivity.
Defined.

Lemma fetch_all_stops pre d post w :
  (∀ d', d' ∈ pre → ∀ h, fails w h (Fetch d') = false) →
  fails w (trace w ++ (Fetch <$> pre)) (Fetch d) = true →
  mapM (λ d, es ← client_get d; mret (d, es)) (pre ++ d :: post) w
  = (Raise (ClientError (Fetch d)),
     with_trace w (trace w ++ (Fetch <$> pre) ++ [Fetch d])).
Proof.
  revert w. induction pre as [|d' pre IH]; intros w Hpre Hd.
  - cbn in *. rewrite app_nil_r in Hd.
    rewrite bind_run, bind_run, client_get_fail by done. done.
  - cbn. rewrite bind_run, bind_run, client_get_ok by (apply Hpre; left).
    cbn. rewrite bind_run, IH.
    + unfold with_trace; cbn. by rewrite <- !(assoc_L (++)).
    + intros d'' Hin h. cbn. apply Hpre. by right.
    + cbn in *. by rewrite <- (assoc_L (++)).
Qed.

(** X3: the first fetch that fails ends the export: the client's exception
    reaches the caller, the domains after the failing one are not
    fetched, and no file is written. *)
Theorem export_stops_at_first_failure (output_file : string) (w : world)
    (pre : list domain) (d : domain) (post : list domain) :
  domains = pre ++ d :: post →
  (∀ d', d' ∈ pre → ∀ h, fails w h (Fetch d') = false) →
  fails w (trace w ++ (Fetch <$> pre)) (Fetch d) = true →
  BambooAccess.write_all_permissions_df_yaml output_file w
  = (Raise (ClientError (Fetch d)),
     with_trace w (trace w ++ (Fetch <$> pre) ++ [Fetch d])).
Proof.
  intros Hds Hpre Hd.
  unfold BambooAccess.write_all_permissions_df_yaml,
    BambooAccess.get_all_permissions_df_yaml,
    BambooAccess.get_all_permissions_df, BambooAccess.get_all_permissions.
  rewrite Hds. by rewrite !bind_run, fetch_all_stops.
Qed.

Lemma export_stops_at_first_failure_witness :
  BambooAccess.write_all_permissions_df_yaml "permissions.yaml"
    world_project_fetch_error
  = (Raise (ClientError (Fetch Project)),
     with_trace world_project_fetch_error
       (trace world_project_fetch_error
        ++ (Fetch <$> [Global; BuildPlan]) ++ [Fetch Project])).
Proof.
  apply (export_stops_at_first_failure "permissions.yaml"
           world_project_fetch_error [Global; BuildPlan] Project
           [Deployment; DeploymentProject; DeploymentEnvironment]).
  - reflexivity.
  - intros d' Hd' h. cbn. apply bool_decide_eq_false. intros [_ [= ->]].
    apply elem_of_cons in Hd' as [?|Hd']; [discriminate|].
    apply elem_of_cons in Hd' as [?|Hd']; [discriminate|].
    by apply elem_of_nil in Hd'.
  - reflexivity.
Defined.

(** ** Frames and records *)

Lemma pd_DataFrame_round_trip (es : list (gmap string cell)) :
  pd_DataFrame (to_dict_records (pd_DataFrame es)) = pd_DataFrame es.
Proof.
  destruct es as [|e es]; [done|]. unfold to_dict_records.
  rewrite (pd_DataFrame_uniform (columns (pd_DataFrame (e :: es)))).
  - by destruct (pd_DataFrame (e :: es)).
  - done.
  - apply list.Forall_forall. intros x Hx. by apply rows_pd_DataFrame_dom.
Qed.

Lemma current_frame_eq es : current_frame es = pd_DataFrame es.
Proof. apply pd_DataFrame_round_trip. Qed.

Lemma current_frames_eq s :
  current_frames s = (λ d, (d, pd_DataFrame (s d))) <$> domains.
Proof.
  unfold current_frames. apply list_fmap_ext. intros _ d _.
  by rewrite pd_DataFrame_round_trip.
Qed.

(** X4: the detour of the current state through records and through the
    export file changes nothing: in every world
    [get_current_permissions_df] ends as [get_all_permissions_df] does,
    with the same frames or the same exception, after the same client
    calls. *)
Theorem current_frames_are_fetched_frames (w : world) :
  (get_current_permissions_df w).1
  = (BambooAccess.get_all_permissions_df w).1
  ∧ trace (get_current_permissions_df w).2
    = trace (BambooAccess.get_all_permissions_df w).2.
Proof.
  unfold get_current_permissions_df, get_current_permissions,
    BambooAccess.write_all_permissions_df_yaml,
    BambooAccess.get_all_permissions_df_yaml,
    BambooAccess.get_all_permissions_df.
  rewrite !bind_run.
  destruct (BambooAccess.get_all_permissions w) as [[ps|e] w1]; [|done].
  cbn. rewrite bind_run, write_yaml_run. cbn.
  split; [|done]. f_equal. rewrite <- !list_fmap_compose.
  apply list_fmap_ext. intros _ [d es] _. cbn. f_equal.
  apply pd_DataFrame_round_trip.
Qed.

(** ** Runs that end normally *)

Lemma fetch_all_ok_inv ds w ys w' :
  mapM (λ d, es ← client_get d; mret (d, es)) ds w = (Ok ys, w') →
  ys = (λ d, (d, store w d)) <$> ds
  ∧ w' = with_trace w (trace w ++ (Fetch <$> ds)).
Proof.
  revert w ys. induction ds as [|d ds IH]; intros w ys; cbn.
  - intros [= <- <-]. unfold with_trace. rewrite app_nil_r. by destruct w.
  - intros H. apply bind_ok_inv in H as ([d' es] & w1 & H1 & H2).
    apply bind_ok_inv in H2 as (k & w2 & H2 & [= <- <-]).
    apply bind_ok_inv in H1 as (es' & w0 & H1 & [= <- <- <-]).
    destruct (fails w (trace w) (Fetch d)) eqn:Hf.
    + rewrite client_get_fail in H1 by done. discriminate.
    + rewrite client_get_ok in H1 by done. injection H1 as <- <-.
      apply IH in H2 as [-> ->]. split; [done|].
      unfold with_trace; cbn. by rewrite <- (assoc_L (++)).
Qed.

Lemma get_current_permissions_df_ok_inv w cur w' :
  get_current_permissions_df w = (Ok cur, w') →
  cur = current_frames (store w) ∧ w' = fetched w.
Proof.
  unfold get_current_permissions_df, get_current_permissions,
    BambooAccess.write_all_permissions_df_yaml,
    BambooAccess.get_all_permissions_df_yaml,
    BambooAccess.get_all_permissions_df, BambooAccess.get_all_permissions.
  rewrite !bind_run.
  destruct (mapM (M := M) _ domains w) as [[ps|e] w1] eqn:Hps;
    [|discriminate].
  apply fetch_all_ok_inv in Hps as [-> ->]. cbn.
  rewrite bind_run, write_yaml_run. cbn. by intros [= <- <-].
Qed.

Lemma get_desired_permissions_df_run w :
  get_desired_permissions_df w
  = match desired_file w with
    | inr doc =>
        (match desired_entries doc with
         | Ok ys => Ok (prod_map id pd_DataFrame <$> ys)
         | Raise e => Raise e
         end, w)
    | inl exc =>
        (Raise (UnboundLocalError "desired_permissions_df_yaml"),
         World (store w) (fails w) (trace w) (desired_file w) (files w)
               (stdout w ++ [exc]))
    end.
Proof.
  unfold get_desired_permissions_df. rewrite bind_run.
  unfold get_desired_permissions at 1.
  destruct (desired_file w) as [exc|doc] eqn:Hf.
  - unfold print, lift. rewrite bind_run. cbn. by rewrite Hf.
  - rewrite bind_run. unfold lift. by destruct (desired_entries doc).
Qed.

Lemma desired_entries_ok_inv doc ys :
  desired_entries doc = Ok ys →
  (∀ d, is_Some (doc !! yaml_key d))
  ∧ ys = (λ d, (d, default [] (doc !! yaml_key d))) <$> domains.
Proof.
  intros H.
  assert (∀ d, is_Some (doc !! yaml_key d)) as Hk.
  { unfold desired_entries, domains in H.
    repeat (rewrite mapM_result_cons in H;
            match type of H with
            | context [doc !! yaml_key ?d] =>
                destruct (doc !! yaml_key d) eqn:?; [|discriminate]
            end).
    intros []; by eexists. }
  split; [done|]. rewrite desired_entries_ok in H by done. congruence.
Qed.

(** ** Loading the desired state *)

Lemma mapM_result_stops {A B} (f : A → result B) pre x post e :
  (∀ y, y ∈ pre → ∃ b, f y = Ok b) → f x = Raise e →
  mapM f (pre ++ x :: post) = Raise e.
Proof.
  intros Hpre Hx. induction pre as [|y pre IH].
  - cbn [app]. by rewrite mapM_result_cons, Hx.
  - cbn [app]. rewrite mapM_result_cons.
    destruct (Hpre y) as [b ->]; [by left|].
    rewrite IH; [done|]. intros z Hz. apply Hpre. by right.
Qed.

(** X5: the loader reads the six domain keys in order; the first one the
    document lacks raises [KeyError] with that key, and the world is
    left as it was. *)
Theorem missing_domain_key_raises (w : world)
    (doc : gmap string (list (gmap string cell)))
    (pre : list domain) (d : domain) (post : list domain) :
  desired_file w = inr doc →
  domains = pre ++ d :: post →
  (∀ d', d' ∈ pre → is_Some (doc !! yaml_key d')) →
  doc !! yaml_key d = None →
  get_desired_permissions_df w = (Raise (KeyError (yaml_key d)), w).
Proof.
  intros Hf Hds Hpre Hd. rewrite get_desired_permissions_df_run, Hf.
  unfold desired_entries. rewrite Hds.
  rewrite (mapM_result_stops _ pre d post (KeyError (yaml_key d))).
  - done.
  - intros d' Hd'. destruct (Hpre d' Hd') as [es ->]. by eexists.
  - by rewrite Hd.
Qed.

Lemma missing_domain_key_raises_witness :
  get_desired_permissions_df world_missing_key
  = (Raise (KeyError (yaml_key Project)), world_missing_key).
Proof.
  apply (missing_domain_key_raises world_missing_key
           (delete "project_permissions"
              (example_document [entry Global "admin" "ADMINISTER"]))
           [Global; BuildPlan] Project
           [Deployment; DeploymentProject; DeploymentEnvironment]).
  - reflexivity.
  - reflexivity.
  - intros d' Hd'.
    apply elem_of_cons in Hd' as [->|Hd']; [by_compute|].
    apply elem_of_cons in Hd' as [->|Hd']; [by_compute|].
    by apply elem_of_nil in Hd'.
  - by_compute.
Defined.

(** ** The diff of a run *)

Lemma get_permissions_diff_df_run w :
  fetch_available w →
  get_permissions_diff_df w
  = match desired_file w with
    | inr doc => (plan_diff (store w) doc, fetched w)
    | inl exc =>
        (Raise (UnboundLocalError "desired_permissions_df_yaml"),
         World (store w) (fails w) (trace (fetched w)) (desired_file w)
               (files (fetched w)) (stdout w ++ [exc]))
    end.
Proof.
  intros Hav. unfold get_permissions_diff_df, get_permissions_diff.
  rewrite bind_run, get_current_permissions_df_ok by done.
  rewrite bind_run, get_desired_permissions_df_run.
  change (desired_file (fetched w)) with (desired_file w).
  destruct (desired_file w) as [exc|doc]; [done|].
  unfold plan_diff. by destruct (desired_entries doc).
Qed.

(** X6: the desired permissions file is read after the current state was
    fetched and exported.  When the loader fails (the file does not
    parse, or a domain key is missing), [get_permissions_diff] ends
    with the loader's exception, and by then the six fetches have been
    made and [current_permissions.yaml] has been written. *)
Theorem desired_file_read_after_fetch (w : world) (e : exn) :
  fetch_available w →
  (get_desired_permissions_df w).1 = Raise e →
  (get_permissions_diff w).1 = Raise e
  ∧ trace (get_permissions_diff w).2 = trace w ++ (Fetch <$> domains)
  ∧ written (get_permissions_diff w).2
    = written w ++ ["current_permissions.yaml"].
Proof.
  intros Hav He.
  change get_permissions_diff with get_permissions_diff_df.
  rewrite get_permissions_diff_df_run by done.
  rewrite get_desired_permissions_df_run in He.
  assert (written (fetched w) = written w ++ ["current_permissions.yaml"])
    as Hw by (unfold written; cbn; by rewrite fmap_app).
  destruct (desired_file w) as [exc|doc].
  - cbn in He. injection He as <-. by split_and!.
  - unfold plan_diff.
    destruct (desired_entries doc) as [ys|e0]; cbn in He; [discriminate|].
    injection He as <-. by split_and!.
Qed.

Lemma desired_file_read_after_fetch_witness :
  (get_permissions_diff world_missing_key).1
  = Raise (KeyError "project_permissions")
  ∧ trace (get_permissions_diff world_missing_key).2
    = trace world_missing_key ++ (Fetch <$> domains)
  ∧ written (get_permissions_diff world_missing_key).2
    = written world_missing_key ++ ["current_permissions.yaml"].
Proof.
  apply (desired_file_read_after_fetch world_missing_key
           (KeyError "project_permissions")).
  - intros h d. reflexivity.
  - vm_compute. reflexivity.
Defined.

Lemma get_permissions_diff_df_ok_inv w diff w' :
  get_permissions_diff_df w = (Ok diff, w') →
  w' = fetched w
  ∧ ∃ doc, desired_file w = inr doc ∧ plan_diff (store w) doc = Ok diff.
Proof.
  unfold get_permissions_diff_df, get_permissions_diff. intros H.
  apply bind_ok_inv in H as (cur & w1 & Hc & H).
  apply get_current_permissions_df_ok_inv in Hc as [-> ->].
  apply bind_ok_inv in H as (des & w2 & Hd & H).
  rewrite get_desired_permissions_df_run in Hd.
  change (desired_file (fetched w)) with (desired_file w) in Hd.
  destruct (desired_file w) as [exc|doc]; [discriminate|].
  unfold lift in H. injection H as H <-.
  destruct (desired_entries doc) as [ys|] eqn:Hys; [|discriminate].
  injection Hd as <- <-. split; [done|]. exists doc. split; [done|].
  unfold plan_diff. by rewrite Hys.
Qed.

Lemma merge_all_domains (f g : domain → DataFrame) ds diff :
  merge_all ((λ d, (d, f d)) <$> ds) ((λ d, (d, g d)) <$> ds) = Ok diff ↔
  (∀ d, d ∈ ds → succeeded (merge_outer_indicator (f d) (g d)) = true)
  ∧ diff = (λ d, (d, frame_of (merge_outer_indicator (f d) (g d)))) <$> ds.
Proof.
  unfold merge_all. revert diff. induction ds as [|d ds IH]; intros diff.
  - cbn. split; [intros [= <-] | intros [_ ->]]; [|done].
    split; [|done]. intros d Hd. by apply elem_of_nil in Hd.
  - cbn [fmap list_fmap zip zip_with]. rewrite mapM_result_cons. cbn.
    destruct (merge_outer_indicator (f d) (g d)) as [df|e] eqn:Hm; cbn.
    + destruct (mapM _ _) as [k|e] eqn:Hk.
      * destruct (proj1 (IH k) eq_refl) as [Hall ->]. split.
        -- intros [= <-]. split; [|done].
           intros d' [->|Hd']%elem_of_cons; [by rewrite Hm | auto].
        -- intros [_ ->]. done.
      * split; [discriminate|]. intros [Hall _]. exfalso.
        assert (∃ k, (Raise e : result (list (domain * DataFrame))) = Ok k)
          as [k Hk']; [|discriminate].
        eexists. apply IH. split; [|done]. intros d' Hd'. apply Hall.
        by right.
    + split; [discriminate|]. intros [Hall _].
      specialize (Hall d (list_elem_of_here _ _)). by rewrite Hm in Hall.
Qed.

Lemma plan_diff_run s doc :
  plan_diff s doc
  = match desired_entries doc with
    | Ok ys => merge_all (current_frames s) (prod_map id pd_DataFrame <$> ys)
    | Raise e => Raise e
    end.
Proof. reflexivity. Qed.

Lemma plan_diff_ok s doc diff :
  plan_diff s doc = Ok diff ↔
  (∀ d, is_Some (doc !! yaml_key d))
  ∧ (∀ d, succeeded (domain_diff s doc d) = true)
  ∧ diff = (λ d, (d, frame_of (domain_diff s doc d))) <$> domains.
Proof.
  rewrite plan_diff_run, current_frames_eq. split.
  - destruct (desired_entries doc) as [ys|] eqn:Hys; [|discriminate].
    apply desired_entries_ok_inv in Hys as [Hk ->].
    rewrite <- list_fmap_compose. intros H.
    apply (merge_all_domains (λ d, pd_DataFrame (s d))
             (λ d, pd_DataFrame (desired_of doc d))) in H as [Hall ->].
    split; [done|]. split; [|done]. intros d. apply Hall, elem_of_domains.
  - intros (Hk & Hall & ->). rewrite desired_entries_ok by done.
    rewrite <- list_fmap_compose.
    apply (merge_all_domains (λ d, pd_DataFrame (s d))
             (λ d, pd_DataFrame (desired_of doc d))).
    split; [|done]. intros d _. apply Hall.
Qed.

Lemma run_ok (r : result (list (domain * DataFrame)) * world) :
  succeeded r.1 = true → r = (Ok (frames_of r.1), r.2).
Proof. by destruct r as [[diff|e] w]. Qed.

Lemma merged_row_indicator left right df x :
  merge_outer_indicator left right = Ok df → x ∈ rows df →
  ∃ t, t ∈ indicators ∧ x !! "_merge" = Some (VStr t).
Proof.
  intros (_ & _ & _ & _ & ->)%merge_ok_inv. cbn.
  rewrite elem_of_app, list_elem_of_bind.
  setoid_rewrite elem_of_left_rows. rewrite elem_of_right_only_rows.
  intros [(l & [[-> _]|(r & _ & _ & ->)] & _)|(r & _ & _ & ->)].
  - exists "left_only". split; [set_solver | apply lookup_tag_merge].
  - exists "both". split; [set_solver | apply lookup_tag_merge].
  - exists "right_only". split; [set_solver | apply lookup_tag_merge].
Qed.

Lemma elem_of_plan_diff s doc diff d df :
  plan_diff s doc = Ok diff →
  (d, df) ∈ diff ↔ domain_diff s doc d = Ok df.
Proof.
  intros (_ & Hall & ->)%plan_diff_ok. rewrite list_elem_of_fmap. split.
  - intros (d' & [= <- ->] & _). apply frame_of_ok, Hall.
  - intros Hm. exists d. rewrite Hm. split; [done | apply elem_of_domains].
Qed.

(** X7: a diff that was computed has one frame per domain, in the order of
    the domains, and each of its rows carries exactly one of the three
    indicators: the row is selected by the mask of that indicator and by
    no other mask. *)
Theorem diff_rows_carry_one_indicator (w w' : world)
    (diff : list (domain * DataFrame)) :
  get_permissions_diff_df w = (Ok diff, w') →
  diff.*1 = domains
  ∧ ∀ d df x, (d, df) ∈ diff → x ∈ rows df →
      ∃ t, t ∈ indicators
           ∧ ∀ t', x ∈ rows (mask_merge t' df) ↔ t' = t.
Proof.
  intros (_ & doc & _ & Hplan)%get_permissions_diff_df_ok_inv. split.
  - apply plan_diff_ok in Hplan as (_ & _ & ->). done.
  - intros d df x Hd Hx. apply (elem_of_plan_diff _ _ _ _ _ Hplan) in Hd.
    destruct (merged_row_indicator _ _ _ _ Hd Hx) as (t & Ht & Hm).
    exists t. split; [done|]. intros t'. rewrite elem_of_mask_merge, Hm.
    split; [by intros [_ [= ->]] | by intros ->].
Qed.

Lemma diff_rows_carry_one_indicator_witness :
  (frames_of (get_permissions_diff_df world_replace).1).*1 = domains
  ∧ ∀ d df x,
      (d, df) ∈ frames_of (get_permissions_diff_df world_replace).1 →
      x ∈ rows df →
      ∃ t, t ∈ indicators
           ∧ ∀ t', x ∈ rows (mask_merge t' df) ↔ t' = t.
Proof.
  apply (diff_rows_carry_one_indicator world_replace
           (get_permissions_diff_df world_replace).2).
  apply run_ok. vm_compute. reflexivity.
Defined.

(** X8: a domain that is empty on one side stops the whole update.  When
    the server holds no entry of some domain, or the desired document
    lists none for it, [update_permissions] ends with an exception once
    the six fetches are made: nothing is granted or revoked in any
    domain, and the server is as before. *)
Theorem empty_domain_blocks_update (w : world)
    (doc : gmap string (list (gmap string cell))) (d : domain) :
  fetch_available w →
  desired_file w = inr doc →
  store w d = [] ∨ desired_of doc d = [] →
  ∃ e, update_permissions w = (Raise e, fetched w).
Proof.
  intros Hav Hf Hempty. unfold update_permissions.
  rewrite bind_run, get_permissions_diff_df_run, Hf by done.
  destruct (plan_diff (store w) doc) as [diff|e] eqn:Hplan; [|by exists e].
  apply plan_diff_ok in Hplan as (_ & Hall & _). specialize (Hall d).
  unfold domain_diff in Hall. destruct Hempty as [He|He]; rewrite He in Hall.
  - by rewrite (proj2 (merge_empty_record_set _)) in Hall.
  - by rewrite (proj1 (merge_empty_record_set _)) in Hall.
Qed.

Lemma empty_domain_blocks_update_witness :
  ∃ e, update_permissions world_revoke_all
       = (Raise e, fetched world_revoke_all).
Proof.
  apply (empty_domain_blocks_update world_revoke_all (example_document [])
           Global).
  - intros h d. reflexivity.
  - reflexivity.
  - right. by_compute.
Defined.

(** ** A run of [update_permissions] that ends normally *)

Lemma update_permissions_ok_inv w a r w' :
  update_permissions w = (Ok (a, r), w') →
  ∃ diff,
    get_permissions_diff_df w = (Ok diff, fetched w)
    ∧ a = selected "right_only" diff
    ∧ r = selected "left_only" diff
    ∧ w' = World (served_calls (planned Revoke r)
                    (served_calls (planned Grant a) (store w)))
                 (fails w)
                 (trace w ++ (Fetch <$> domains) ++ planned Grant a
                  ++ planned Revoke r)
                 (desired_file w) (files (fetched w)) (stdout w).
Proof.
  unfold update_permissions. intros H.
  apply bind_ok_inv in H as (diff & w1 & Hd & H).
  pose proof (get_permissions_diff_df_ok_inv _ _ _ Hd) as [-> _].
  apply bind_ok_inv in H as ([] & w2 & Hg & H).
  apply bind_ok_inv in H as ([] & w3 & Hr & H).
  injection H as <- <- <-.
  apply (apply_loop_world Grant) in Hg. apply (apply_loop_world Revoke) in Hr.
  exists diff. split_and!; [done..|]. rewrite Hr, Hg. cbn.
  by rewrite <- !(assoc_L (++)).
Qed.

(** ** The calls of the apply loops *)

Lemma run_ok_or {A} (a : A) (x : result A * world) :
  succeeded x.1 = true → x = (Ok (result_or a x.1), x.2).
Proof. by destruct x as [[v|e] w]. Qed.

Lemma subscripts_cells cols (row : gmap string cell) args :
  mapM (subscript row) cols = Ok args → args = omap (λ k, row !! k) cols.
Proof.
  revert args. induction cols as [|c cs IH]; intros args.
  - by intros [= <-].
  - rewrite mapM_result_cons. unfold subscript at 1. cbn [omap list_omap].
    destruct (row !! c) as [x|]; [|done].
    destruct (mapM (subscript row) cs) as [xs|]; [|done].
    intros [= <-]. by rewrite (IH xs).
Qed.

Lemma call_args_cells d row args :
  call_args d row = Ok args → args = call_cells d row.
Proof. apply subscripts_cells. Qed.

Lemma planned_cons mk d rs sel :
  planned mk ((d, rs) :: sel) = planned mk [(d, rs)] ++ planned mk sel.
Proof. unfold planned. cbn. by rewrite app_nil_r. Qed.

Lemma rows_loop_calls mk d rs w w' :
  for_each rs (permission_call mk d) w = (Ok (), w') →
  planned mk [(d, rs)] = (λ row, mk d (call_cells d row)) <$> rs.
Proof.
  revert w. induction rs as [|r rs IH]; intros w; cbn; [done|].
  intros H. apply bind_ok_inv in H as ([] & w1 & H1 & H2).
  apply IH in H2. unfold permission_call in H1.
  apply bind_ok_inv in H1 as (args & w0 & Ha & _).
  unfold lift in Ha. injection Ha as Ha <-.
  unfold planned in *; cbn in *. rewrite Ha; cbn.
  rewrite app_nil_r in *. by rewrite H2, (call_args_cells _ _ _ Ha).
Qed.

Lemma apply_loop_calls mk (sel : list (domain * list (gmap string cell)))
    w w' :
  for_each sel (λ p, for_each p.2 (permission_call mk p.1)) w = (Ok (), w') →
  planned mk sel = calls_of mk sel.
Proof.
  revert w. induction sel as [|[d rs] sel IH]; intros w H; [done|].
  cbn in H. apply bind_ok_inv in H as ([] & w1 & H1 & H2).
  apply rows_loop_calls in H1. apply IH in H2.
  by rewrite planned_cons, H1, H2.
Qed.

(** X9: the client calls of a run that ends normally: the six fetches, then
    one grant per added row, then one revoke per removed row, in the
    order of the domains and of the rows; the arguments of a call are
    the cells of its row at the call columns of the domain. *)
Theorem successful_run_calls (w w' : world)
    (added removed : list (domain * list (gmap string cell))) :
  update_permissions w = (Ok (added, removed), w') →
  trace w' = trace w ++ (Fetch <$> domains) ++ calls_of Grant added
             ++ calls_of Revoke removed.
Proof.
  intros H. pose proof (update_permissions_ok_inv _ _ _ _ H)
    as (diff & _ & -> & -> & ->). cbn.
  unfold update_permissions in H.
  apply bind_ok_inv in H as (diff' & w1 & _ & H).
  apply bind_ok_inv in H as ([] & w2 & Hg & H).
  apply bind_ok_inv in H as ([] & w3 & Hr & H).
  injection H as Ha Hr' _.
  apply (apply_loop_calls Grant) in Hg.
  apply (apply_loop_calls Revoke) in Hr.
  by rewrite <- Ha, <- Hr', Hg, Hr.
Qed.

Lemma successful_run_calls_witness :
  trace (update_permissions world_replace).2
  = trace world_replace ++ (Fetch <$> domains)
    ++ calls_of Grant (result_or ([], []) (update_permissions world_replace).1).1
    ++ calls_of Revoke
         (result_or ([], []) (update_permissions world_replace).1).2.
Proof.
  apply (successful_run_calls world_replace).
  rewrite <- surjective_pairing. apply run_ok_or. vm_compute. reflexivity.
Defined.

Lemma subscripts_stop (row : gmap string cell) pre k post :
  (∀ k', k' ∈ pre → is_Some (row !! k')) → row !! k = None →
  mapM (subscript row) (pre ++ k :: post) = Raise (KeyError k).
Proof.
  intros Hpre Hk. apply mapM_result_stops.
  - intros k' Hk'. destruct (Hpre k' Hk') as [c Hc]. exists c.
    unfold subscript. by rewrite Hc.
  - unfold subscript. by rewrite Hk.
Qed.

(** X10: a row that lacks a call column is not sent to the client.  The add
    and the remove call of a domain read the row's cells from left to
    right; the first column the row lacks raises [KeyError] with that
    column, before the client is called: the world is as it was. *)
Theorem missing_field_raises_before_call (d : domain)
    (r : gmap string cell) (pre : list string) (k : string)
    (post : list string) (w : world) :
  call_columns d = pre ++ k :: post →
  (∀ k', k' ∈ pre → is_Some (r !! k')) →
  r !! k = None →
  add_permission d r w = (Raise (KeyError k), w)
  ∧ remove_permission d r w = (Raise (KeyError k), w).
Proof.
  intros Hcols Hpre Hk.
  assert (call_args d r = Raise (KeyError k)) as Ha.
  { unfold call_args. rewrite Hcols. by apply subscripts_stop. }
  unfold add_permission, remove_permission. rewrite !bind_run.
  unfold lift. by rewrite Ha.
Qed.

Lemma missing_field_raises_before_call_witness :
  add_permission Global both_identities world_identities
  = (Raise (KeyError "type"), world_identities)
  ∧ remove_permission Global both_identities world_identities
    = (Raise (KeyError "type"), world_identities).
Proof.
  apply (missing_field_raises_before_call Global both_identities
           ["permission"] "type" ["name"] world_identities).
  - reflexivity.
  - intros k' Hk'. apply elem_of_cons in Hk' as [->|Hk']; [by_compute|].
    by apply elem_of_nil in Hk'.
  - by_compute.
Defined.

(** ** The rows of a diff frame *)

Lemma dom_tag t (r : gmap string cell) : dom (tag t r) = {[ "_merge" ]} ∪ dom r.
Proof. unfold tag. by rewrite dom_insert_L. Qed.

Lemma merged_rows_dom es es' df x :
  merge_outer_indicator (pd_DataFrame es) (pd_DataFrame es') = Ok df →
  x ∈ rows df → dom x = columns df.
Proof.
  intros Hm. pose proof Hm as (_ & _ & _ & _ & ->)%merge_ok_inv.
  cbn [rows columns]. rewrite elem_of_app, list_elem_of_bind.
  setoid_rewrite elem_of_left_rows. rewrite elem_of_right_only_rows.
  intros [(l & [[-> _]|(r & Hr & _ & ->)] & Hl)|(r & Hr & _ & ->)];
    rewrite dom_tag, ?dom_fill, ?dom_union_L;
    repeat match goal with
           | H : _ ∈ rows (pd_DataFrame _) |- _ =>
               apply rows_pd_DataFrame_dom in H; rewrite H
           end; set_solver.
Qed.

(** X11: every row of a diff frame is defined on every column of the frame:
    the columns of the two merged frames and the indicator.  So whether
    the apply loops can read the call columns of a domain depends on the
    columns of the frame alone: when the frame has them all, every row
    yields the arguments of a call; when it lacks one, every row raises
    [KeyError] with the first call column the frame lacks. *)
Theorem diff_rows_have_all_columns (s : domain → list (gmap string cell))
    (doc : gmap string (list (gmap string cell))) (d : domain)
    (df : DataFrame) :
  domain_diff s doc d = Ok df →
  columns df = columns (pd_DataFrame (s d))
               ∪ columns (pd_DataFrame (desired_of doc d)) ∪ {[ "_merge" ]}
  ∧ (∀ x, x ∈ rows df → dom x = columns df)
  ∧ ((∀ k, k ∈ call_columns d → k ∈ columns df) →
     ∀ x, x ∈ rows df → ∃ args, call_args d x = Ok args)
  ∧ (∀ pre k post,
       call_columns d = pre ++ k :: post →
       (∀ k', k' ∈ pre → k' ∈ columns df) → k ∉ columns df →
       ∀ x, x ∈ rows df → call_args d x = Raise (KeyError k)).
Proof.
  intros Hm. unfold domain_diff in Hm.
  assert (∀ x, x ∈ rows df → dom x = columns df) as Hdom
    by (intros x; apply (merged_rows_dom _ _ _ x Hm)).
  split_and!.
  - by pose proof Hm as (_ & _ & _ & _ & ->)%merge_ok_inv.
  - done.
  - intros Hcols x Hx. apply call_args_ok. intros k Hk.
    apply elem_of_dom. rewrite (Hdom x Hx). by apply Hcols.
  - intros pre k post Hcc Hpre Hk x Hx. unfold call_args. rewrite Hcc.
    apply subscripts_stop.
    + intros k' Hk'. apply elem_of_dom. rewrite (Hdom x Hx). by apply Hpre.
    + apply not_elem_of_dom. by rewrite (Hdom x Hx).
Qed.

Lemma diff_rows_have_all_columns_witness :
  let s := store world_identities in
  let doc := example_document [both_identities] in
  let df := frame_of (domain_diff s doc Global) in
  columns df = columns (pd_DataFrame (s Global))
               ∪ columns (pd_DataFrame (desired_of doc Global))
               ∪ {[ "_merge" ]}
  ∧ (∀ x, x ∈ rows df → dom x = columns df)
  ∧ ((∀ k, k ∈ call_columns Global → k ∈ columns df) →
     ∀ x, x ∈ rows df → ∃ args, call_args Global x = Ok args)
  ∧ (∀ pre k post,
       call_columns Global = pre ++ k :: post →
       (∀ k', k' ∈ pre → k' ∈ columns df) → k ∉ columns df →
       ∀ x, x ∈ rows df → call_args Global x = Raise (KeyError k)).
Proof.
  apply (diff_rows_have_all_columns (store world_identities)
           (example_document [both_identities]) Global).
  apply frame_of_ok. vm_compute. reflexivity.
Defined.

(** X12: the rows the apply loops read are entries completed with [NaN]: an
    added row holds, at every column of the diff frame but the
    indicator, the cell of some desired entry, or [NaN] where that entry
    has no such field; a removed row does the same for an entry of the
    server.  A field an entry leaves out therefore reaches the client
    as [NaN]. *)
Theorem omitted_fields_are_nan (s : domain → list (gmap string cell))
    (doc : gmap string (list (gmap string cell))) (d : domain)
    (df : DataFrame) :
  domain_diff s doc d = Ok df →
  (∀ x, x ∈ rows (mask_merge "right_only" df) →
        ∃ e, e ∈ desired_of doc d
             ∧ ∀ k, k ∈ columns df → k ≠ "_merge" →
                    x !! k = Some (default NaN (e !! k)))
  ∧ (∀ x, x ∈ rows (mask_merge "left_only" df) →
          ∃ e, e ∈ s d
               ∧ ∀ k, k ∈ columns df → k ≠ "_merge" →
                      x !! k = Some (default NaN (e !! k))).
Proof.
  intros Hm. unfold domain_diff in Hm.
  pose proof Hm as (_ & _ & _ & _ & Hdf)%merge_ok_inv.
  assert (∀ cols cols' (e : gmap string cell) k,
            k ∈ cols ∪ cols' →
            fill cols (fill cols' e) !! k = Some (default NaN (e !! k)))
    as Hfill.
  { intros cols cols' e k Hk. rewrite !lookup_fill.
    destruct (e !! k); [done|]. repeat case_decide; set_solver. }
  split.
  - intros x (r & Hr & _ & ->)%(merge_right_only _ _ _ _ Hm).
    cbn in Hr. apply list_elem_of_fmap in Hr as (e & -> & He).
    exists e. split; [done|]. intros k Hk Hne.
    rewrite lookup_tag_ne by done. apply Hfill.
    rewrite Hdf in Hk. cbn in Hk. set_solver.
  - intros x (l & Hl & _ & ->)%(merge_left_only _ _ _ _ Hm).
    cbn in Hl. apply list_elem_of_fmap in Hl as (e & -> & He).
    exists e. split; [done|]. intros k Hk Hne.
    rewrite lookup_tag_ne by done. apply Hfill.
    rewrite Hdf in Hk. cbn in Hk. set_solver.
Qed.

Lemma omitted_fields_are_nan_witness :
  let s := store world_untyped in
  let doc := example_document [entry Global "admin" "ADMINISTER"; untyped] in
  let df := frame_of (domain_diff s doc Global) in
  (∀ x, x ∈ rows (mask_merge "right_only" df) →
        ∃ e, e ∈ desired_of doc Global
             ∧ ∀ k, k ∈ columns df → k ≠ "_merge" →
                    x !! k = Some (default NaN (e !! k)))
  ∧ (∀ x, x ∈ rows (mask_merge "left_only" df) →
          ∃ e, e ∈ s Global
               ∧ ∀ k, k ∈ columns df → k ≠ "_merge" →
                      x !! k = Some (default NaN (e !! k))).
Proof.
  apply (omitted_fields_are_nan (store world_untyped)
           (example_document [entry Global "admin" "ADMINISTER"; untyped])
           Global).
  apply frame_of_ok. vm_compute. reflexivity.
Defined.

(** The desired entry [untyped] names no type: it is granted with [NaN]
    as the type. *)
Example untyped_entry_granted_with_nan :
  trace (update_permissions world_untyped).2
  = (Fetch <$> domains) ++ [Grant Global [VStr "VIEW"; NaN; VStr "jdoe"]].
Proof. vm_compute. reflexivity. Qed.

(** ** The main program *)

Lemma run_ok_unit (x : result unit * world) :
  succeeded x.1 = true → x = (Ok (), x.2).
Proof. by destruct x as [[[]|e] w]. Qed.

Lemma written_with_file w f doc : written (with_file w f doc) = written w ++ [f].
Proof. unfold written; cbn. by rewrite fmap_app. Qed.

Lemma trace_with_file w f doc : trace (with_file w f doc) = trace w.
Proof. reflexivity. Qed.

Lemma trace_fetched w : trace (fetched w) = trace w ++ (Fetch <$> domains).
Proof. reflexivity. Qed.

Lemma written_fetched w :
  written (fetched w) = written w ++ ["current_permissions.yaml"].
Proof. unfold written; cbn. by rewrite fmap_app. Qed.

Lemma write_permissions_diff_df_yaml_ok_inv f w ys w' :
  write_permissions_diff_df_yaml f w = (Ok ys, w') →
  w' = with_file (fetched w) f (keyed "_diff" ys).
Proof.
  unfold write_permissions_diff_df_yaml, get_permissions_diff_df_yaml.
  intros H. apply bind_ok_inv in H as (ys' & w1 & H1 & H).
  apply bind_ok_inv in H1 as (diff & w0 & Hd & [= <- <-]).
  apply get_permissions_diff_df_ok_inv in Hd as [-> _].
  rewrite bind_run, write_yaml_run in H. by injection H as <- <-.
Qed.

Lemma update_permissions_ok_effects w a r w' :
  update_permissions w = (Ok (a, r), w') →
  written w' = written w ++ ["current_permissions.yaml"]
  ∧ trace w' = trace w ++ (Fetch <$> domains) ++ planned Grant a
               ++ planned Revoke r.
Proof.
  intros (diff & _ & _ & _ & ->)%update_permissions_ok_inv.
  split; [apply written_fetched | done].
Qed.

(** X13: a run of the main program that ends normally writes six files, in
    this order: the export of the current state before each of its three
    passes, and after it the diff report, the added report and the
    removed report.  It fetches the six domains three times, and each of
    the two report writers is followed by its own grants and revokes. *)
Theorem main_writes_six_files (w w' : world) :
  main w = (Ok (), w') →
  written w'
  = written w
    ++ ["current_permissions.yaml"; "permissions_diff.yaml";
        "current_permissions.yaml"; "permissions_diff_added.yaml";
        "current_permissions.yaml"; "permissions_diff_removed.yaml"]
  ∧ ∃ gs1 rs1 gs2 rs2,
      trace w' = trace w ++ (Fetch <$> domains)
                 ++ (Fetch <$> domains) ++ gs1 ++ rs1
                 ++ (Fetch <$> domains) ++ gs2 ++ rs2
      ∧ Forall is_grant gs1 ∧ Forall is_revoke rs1
      ∧ Forall is_grant gs2 ∧ Forall is_revoke rs2.
Proof.
  unfold main. intros H.
  apply bind_ok_inv in H as (ys & w1 & H1 & H).
  apply bind_ok_inv in H as (ys2 & w2 & H2 & H).
  apply bind_ok_inv in H as (ys3 & w3 & H3 & [= <-]).
  apply write_permissions_diff_df_yaml_ok_inv in H1 as ->.
  rewrite write_added_run in H2.
  destruct (update_permissions (with_file (fetched w) _ _))
    as [[[a1 r1]|e] v1] eqn:Hu1; [|discriminate].
  injection H2 as _ <-. rewrite write_removed_run in H3.
  destruct (update_permissions (with_file v1 _ _))
    as [[[a2 r2]|e] v2] eqn:Hu2; [|discriminate].
  injection H3 as _ <-.
  apply update_permissions_ok_effects in Hu1 as [Hw1 Ht1].
  apply update_permissions_ok_effects in Hu2 as [Hw2 Ht2].
  split.
  - rewrite written_with_file, Hw2, written_with_file, Hw1,
      written_with_file, written_fetched.
    by rewrite <- !(assoc_L (++)).
  - exists (planned Grant a1), (planned Revoke r1), (planned Grant a2),
      (planned Revoke r2).
    split_and!; [|apply planned_grants | apply planned_revokes
                 |apply planned_grants | apply planned_revokes].
    rewrite trace_with_file, Ht2, trace_with_file, Ht1, trace_with_file,
      trace_fetched.
    by rewrite <- !(assoc_L (++)).
Qed.

Lemma main_writes_six_files_witness :
  written (main world_replace).2
  = written world_replace
    ++ ["current_permissions.yaml"; "permissions_diff.yaml";
        "current_permissions.yaml"; "permissions_diff_added.yaml";
        "current_permissions.yaml"; "permissions_diff_removed.yaml"]
  ∧ ∃ gs1 rs1 gs2 rs2,
      trace (main world_replace).2
      = trace world_replace ++ (Fetch <$> domains)
        ++ (Fetch <$> domains) ++ gs1 ++ rs1
        ++ (Fetch <$> domains) ++ gs2 ++ rs2
      ∧ Forall is_grant gs1 ∧ Forall is_revoke rs1
      ∧ Forall is_grant gs2 ∧ Forall is_revoke rs2.
Proof.
  apply (main_writes_six_files world_replace).
  apply run_ok_unit. vm_compute. reflexivity.
Defined.

(** ** A second run *)

Lemma lookup_called_entry d (row : gmap string cell) k :
  called_entry d row !! k
  = if decide (k ∈ call_columns d) then row !! k else None.
Proof.
  unfold called_entry. apply option_eq. intros c.
  rewrite map_lookup_filter_Some. cbn. case_decide; naive_solver.
Qed.

Lemma dom_called_entry d (row : gmap string cell) :
  list_to_set (call_columns d) ⊆ dom row →
  dom (called_entry d row) = list_to_set (call_columns d).
Proof.
  intros Hsub. apply set_eq. intros k.
  rewrite elem_of_dom, lookup_called_entry, elem_of_list_to_set.
  case_decide as Hk; [|split; [by intros [? ?] | done]].
  split; [done|]. intros _. apply elem_of_dom, Hsub.
  by apply elem_of_list_to_set.
Qed.

Lemma pd_DataFrame_inhabited es :
  columns (pd_DataFrame es) ≠ ∅ → ∃ r, r ∈ rows (pd_DataFrame es).
Proof.
  destruct es as [|e es]; [cbn; set_solver|]. intros _. eexists. cbn. left.
Qed.

(** One domain: the entries [C] of the server, all in the shape of the
    calls, the desired entries [D], their diff [df], and the entries
    [C'] of the server once the added rows of [df] are granted and its
    removed rows revoked. *)
Section second_run.
Context (d : domain) (C D C' : list (gmap string cell)) (df : DataFrame).
Local Abbreviation S := (list_to_set (call_columns d) : gset string).
Local Abbreviation cd := (columns (pd_DataFrame D)).
Hypothesis HC : Forall (λ e : gmap string cell, dom e = S) C.
Hypothesis Hm :
  merge_outer_indicator (pd_DataFrame C) (pd_DataFrame D) = Ok df.
Hypothesis HC' : ∀ x,
  x ∈ C' ↔
  (x ∈ C ∨ ∃ row, row ∈ rows (mask_merge "right_only" df)
                  ∧ x = called_entry d row)
  ∧ (∀ row, row ∈ rows (mask_merge "left_only" df) → x ≠ called_entry d row).

Lemma second_run_frame : pd_DataFrame C = {| columns := S; rows := C |}.
Proof.
  apply pd_DataFrame_uniform; [|done]. intros ->.
  by rewrite (proj2 (merge_empty_record_set D)) in Hm.
Qed.

Lemma second_run_merge :
  merge_outer_indicator {| columns := S; rows := C |} (pd_DataFrame D) = Ok df.
Proof. by rewrite <- second_run_frame. Qed.

Lemma second_run_not_reserved : "_merge" ∉ S.
Proof.
  pose proof (merge_ok_inv _ _ _ second_run_merge) as (_ & Hres & _).
  cbn in Hres. unfold reserved in Hres. set_solver.
Qed.

Lemma second_run_dom_C l : l ∈ C → dom l = S.
Proof. intros Hl. by apply (proj1 (list.Forall_forall _ _) HC). Qed.

(** The entry of a removed row is the server's entry itself. *)
Lemma second_run_removed_entry t l :
  l ∈ C → called_entry d (tag t (fill cd l)) = l.
Proof.
  intros Hl. pose proof (second_run_dom_C l Hl) as Hdom.
  apply map_eq. intros k. rewrite lookup_called_entry.
  case_decide as Hk.
  - assert (k ∈ S) as HkS by (by apply elem_of_list_to_set).
    rewrite lookup_tag_ne, lookup_fill
      by (intros ->; by apply second_run_not_reserved).
    rewrite <- Hdom in HkS. apply elem_of_dom in HkS as [c ->]. done.
  - symmetry. apply not_elem_of_dom. rewrite Hdom.
    by rewrite elem_of_list_to_set.
Qed.

(** The entry of an added row has the shape of the calls and agrees
    with the desired row on the join key. *)
Lemma second_run_added_entry t (r : gmap string cell) :
  dom r = cd →
  dom (called_entry d (tag t (fill S r))) = S
  ∧ agree (S ∩ cd) (called_entry d (tag t (fill S r))) r.
Proof.
  intros Hr. split.
  - apply dom_called_entry. rewrite dom_tag, dom_fill. set_solver.
  - intros k Hk. cbn. rewrite lookup_called_entry.
    rewrite decide_True by set_solver.
    rewrite lookup_tag_ne, lookup_fill
      by (intros ->; apply second_run_not_reserved; set_solver).
    assert (k ∈ dom r) as [c ->]%elem_of_dom by (rewrite Hr; set_solver).
    done.
Qed.

Lemma second_run_dom_R r : r ∈ rows (pd_DataFrame D) → dom r = cd.
Proof. apply rows_pd_DataFrame_dom. Qed.

(** Every desired row has a partner among the new entries. *)
Lemma second_run_desired_matched r :
  r ∈ rows (pd_DataFrame D) → ∃ l, l ∈ C' ∧ agree (S ∩ cd) l r.
Proof.
  intros Hr. pose proof second_run_merge as Hm'.
  assert (∀ row, row ∈ rows (mask_merge "left_only" df) →
                 ∀ x, agree (S ∩ cd) x r → x ≠ called_entry d row) as Hkeep.
  { intros row (l & Hl & Hno & ->)%(merge_left_only _ _ _ _ Hm') x Ha ->.
    cbn in Hl, Hno. rewrite second_run_removed_entry in Ha by done.
    by apply (Hno r). }
  destruct (decide (Exists (λ l, agree (S ∩ cd) l r) C)) as [Hex|Hno].
  - apply list.Exists_exists in Hex as (l & Hl & Ha). exists l.
    split; [|done]. apply HC'. split; [by left|].
    intros row Hrow. by apply (Hkeep row Hrow).
  - pose proof (second_run_added_entry "right_only" r
                  (second_run_dom_R r Hr)) as [_ Ha].
    eexists. split; [|exact Ha]. apply HC'. split.
    + right. eexists. split; [|done].
      apply (merge_right_only _ _ _ _ Hm'). exists r. cbn.
      split_and!; [done| |done]. intros l Hl Hal. apply Hno.
      apply list.Exists_exists. eauto.
    + intros row Hrow. by apply (Hkeep row Hrow).
Qed.

(** Every new entry has a partner among the desired rows. *)
Lemma second_run_current_matched x :
  x ∈ C' → ∃ r, r ∈ rows (pd_DataFrame D) ∧ agree (S ∩ cd) x r.
Proof.
  intros [[Hx|(row & Hrow & ->)] Hkeep]%HC'.
  - destruct (decide (Exists (agree (S ∩ cd) x) (rows (pd_DataFrame D))))
      as [Hex|Hno].
    { apply list.Exists_exists in Hex as (r & Hr & Ha). eauto. }
    exfalso. apply (Hkeep (tag "left_only" (fill cd x))).
    + apply (merge_left_only _ _ _ _ second_run_merge). exists x. cbn.
      split_and!; [done| |done]. intros r Hr Ha. apply Hno.
      apply list.Exists_exists. eauto.
    + by rewrite second_run_removed_entry.
  - apply (merge_right_only _ _ _ _ second_run_merge) in Hrow
      as (r & Hr & _ & ->). cbn in Hr. exists r. split; [done|].
    by apply second_run_added_entry, second_run_dom_R.
Qed.

Lemma second_run_dom_C' x : x ∈ C' → dom x = S.
Proof.
  intros [[Hx|(row & Hrow & ->)] _]%HC'; [by apply second_run_dom_C|].
  apply (merge_right_only _ _ _ _ second_run_merge) in Hrow
    as (r & Hr & _ & ->). cbn in Hr.
  by apply second_run_added_entry, second_run_dom_R.
Qed.

Lemma second_run_frame' : pd_DataFrame C' = {| columns := S; rows := C' |}.
Proof.
  apply pd_DataFrame_uniform.
  - pose proof (merge_ok_inv _ _ _ second_run_merge) as (HK & _). cbn in HK.
    destruct (pd_DataFrame_inhabited D) as [r Hr]; [set_solver|].
    destruct (second_run_desired_matched r Hr) as (l & Hl & _).
    intros HC'nil. rewrite HC'nil in Hl. by apply elem_of_nil in Hl.
  - apply list.Forall_forall. intros x Hx. by apply second_run_dom_C'.
Qed.

Lemma second_run_hashable :
  hashable_keys (S ∩ cd) {| columns := S; rows := C' |}.
Proof.
  pose proof (merge_ok_inv _ _ _ second_run_merge) as (_ & _ & HhC & HhD & _).
  cbn in HhC, HhD. apply list.Forall_forall. cbn. intros x Hx k Hk. cbn.
  destruct (second_run_current_matched x Hx) as (r & Hr & Ha).
  rewrite (Ha k Hk).
  by apply (proj1 (list.Forall_forall _ _) HhD r Hr k Hk).
Qed.

(** After the calls of the first diff, the diff is empty on both
    sides. *)
Lemma second_run_diff :
  ∃ df', merge_outer_indicator (pd_DataFrame C') (pd_DataFrame D) = Ok df'
         ∧ rows (mask_merge "right_only" df') = []
         ∧ rows (mask_merge "left_only" df') = [].
Proof.
  pose proof (merge_ok_inv _ _ _ second_run_merge) as (HK & Hres & _ & HhD & _).
  cbn in HK, Hres, HhD.
  assert (∃ df', merge_outer_indicator {| columns := S; rows := C' |}
                   (pd_DataFrame D) = Ok df') as [df' Hm'].
  { unfold merge_outer_indicator. cbn [columns rows].
    rewrite decide_False by done. rewrite decide_True by done.
    rewrite decide_True by (split; [apply second_run_hashable | done]).
    by eexists. }
  exists df'. rewrite second_run_frame'. split; [done|]. split.
  - apply elem_of_nil_inv. intros x
      (r & Hr & Hno & _)%(merge_right_only _ _ _ _ Hm'). cbn in Hno.
    destruct (second_run_desired_matched r Hr) as (l & Hl & Ha).
    by apply (Hno l).
  - apply elem_of_nil_inv. intros x
      (l & Hl & Hno & _)%(merge_left_only _ _ _ _ Hm'). cbn in Hl, Hno.
    destruct (second_run_current_matched l Hl) as (r & Hr & Ha).
    by apply (Hno r).
Qed.

End second_run.

Lemma elem_of_selected t (diff : list (domain * DataFrame)) d rs :
  (d, rs) ∈ selected t diff ↔
  ∃ df, (d, df) ∈ diff ∧ rs = rows (mask_merge t df).
Proof.
  unfold selected. rewrite list_elem_of_fmap. split.
  - intros ([d' df] & [= -> ->] & Hin). eauto.
  - intros (df & Hin & ->). by exists (d, df).
Qed.

(** The calls planned for one domain are those of the rows its diff
    frame selects. *)
Lemma elem_of_planned_selected mk s doc diff t d df args :
  (∀ d1 d2 a1 a2, mk d1 a1 = mk d2 a2 → d1 = d2 ∧ a1 = a2) →
  plan_diff s doc = Ok diff →
  domain_diff s doc d = Ok df →
  mk d args ∈ planned mk (selected t diff) ↔
  ∃ row, row ∈ rows (mask_merge t df) ∧ call_args d row = Ok args.
Proof.
  intros Hinj Hplan Hdf. rewrite elem_of_planned. split.
  - intros (d' & rs & row & args' & Hsel & Hrow & Ha & Heq).
    apply Hinj in Heq as [<- <-].
    apply elem_of_selected in Hsel as (df' & Hin & ->).
    apply (elem_of_plan_diff _ _ _ _ _ Hplan) in Hin.
    assert (df' = df) as -> by congruence. eauto.
  - intros (row & Hrow & Ha). exists d, (rows (mask_merge t df)), row, args.
    split_and!; [|done..]. apply elem_of_selected. exists df.
    split; [|done]. by apply (elem_of_plan_diff _ _ _ _ _ Hplan).
Qed.

Lemma mask_merge_subseteq t df x : x ∈ rows (mask_merge t df) → x ∈ rows df.
Proof. by intros [? _]%elem_of_mask_merge. Qed.

(** The entries of one domain once a diff is applied: those the server
    had and those of the added rows, but for those of the removed
    rows. *)
Lemma store_after_run s doc diff d df x :
  store_wf s →
  plan_diff s doc = Ok diff →
  domain_diff s doc d = Ok df →
  x ∈ served_calls (planned Revoke (selected "left_only" diff))
        (served_calls (planned Grant (selected "right_only" diff)) s) d
  ↔ (x ∈ s d ∨ ∃ row, row ∈ rows (mask_merge "right_only" df)
                      ∧ x = called_entry d row)
    ∧ (∀ row, row ∈ rows (mask_merge "left_only" df)
              → x ≠ called_entry d row).
Proof.
  intros Hwf Hplan Hdf.
  assert (∀ row, row ∈ rows df → ∃ args, call_args d row = Ok args) as Htot.
  { intros row Hrow. apply call_args_ok. intros k Hk. apply elem_of_dom.
    unfold domain_diff in Hdf. rewrite (merged_rows_dom _ _ _ _ Hdf Hrow).
    assert (pd_DataFrame (s d)
            = {| columns := list_to_set (call_columns d); rows := s d |})
      as Hfr.
    { apply pd_DataFrame_uniform; [|apply Hwf]. intros Hnil.
      rewrite Hnil in Hdf.
      by rewrite (proj2 (merge_empty_record_set _)) in Hdf. }
    pose proof Hdf as (_ & _ & _ & _ & ->)%merge_ok_inv. rewrite Hfr. cbn.
    set_solver. }
  rewrite elem_of_served_revokes by apply planned_revokes.
  rewrite elem_of_served_grants by apply planned_grants.
  assert (∀ d1 d2 a1 a2, Grant d1 a1 = Grant d2 a2 → d1 = d2 ∧ a1 = a2)
    as HG by (by intros ???? [= -> ->]).
  assert (∀ d1 d2 a1 a2, Revoke d1 a1 = Revoke d2 a2 → d1 = d2 ∧ a1 = a2)
    as HR by (by intros ???? [= -> ->]).
  setoid_rewrite (elem_of_planned_selected Grant _ _ _ _ _ _ _ HG Hplan Hdf).
  setoid_rewrite (elem_of_planned_selected Revoke _ _ _ _ _ _ _ HR Hplan Hdf).
  split.
  - intros [Hin Hkeep]. split.
    + destruct Hin as [?|(args & (row & Hrow & Ha) & ->)]; [by left|].
      right. exists row. split; [done|]. by apply call_args_entry.
    + intros row Hrow.
      destruct (Htot row (mask_merge_subseteq _ _ _ Hrow)) as [args Ha].
      rewrite <- (call_args_entry _ _ _ Ha). apply Hkeep. eauto.
  - intros [Hin Hkeep]. split.
    + destruct Hin as [?|(row & Hrow & ->)]; [by left|].
      destruct (Htot row (mask_merge_subseteq _ _ _ Hrow)) as [args Ha].
      right. exists args. split; [eauto|]. symmetry.
      by apply call_args_entry.
    + intros args (row & Hrow & Ha). rewrite (call_args_entry _ _ _ Ha).
      by apply Hkeep.
Qed.

Lemma selected_nothing t (h : domain → DataFrame) :
  (∀ d, rows (mask_merge t (h d)) = []) →
  selected t ((λ d, (d, h d)) <$> domains) = no_selection.
Proof.
  intros Hnil. unfold selected, no_selection.
  rewrite <- list_fmap_compose. apply list_fmap_ext. intros _ d _.
  change ((d, rows (mask_merge t (h d))) = (d, @nil (gmap string cell))).
  by rewrite Hnil.
Qed.

(** Once a diff is applied, the diff of every domain is empty on both
    sides, and the entries of the server keep the fields of the calls. *)
Lemma second_plan s doc diff :
  store_wf s →
  plan_diff s doc = Ok diff →
  let s' := served_calls (planned Revoke (selected "left_only" diff))
              (served_calls (planned Grant (selected "right_only" diff)) s) in
  let diff' := (λ d, (d, frame_of (domain_diff s' doc d))) <$> domains in
  store_wf s'
  ∧ plan_diff s' doc = Ok diff'
  ∧ selected "right_only" diff' = no_selection
  ∧ selected "left_only" diff' = no_selection.
Proof.
  intros Hwf Hplan s' diff'.
  pose proof (proj1 (plan_diff_ok _ _ _) Hplan) as (Hk & Hall & Hdiff).
  assert (∀ d x, x ∈ s' d ↔
            (x ∈ s d
             ∨ ∃ row, row ∈ rows (mask_merge "right_only"
                                    (frame_of (domain_diff s doc d)))
                      ∧ x = called_entry d row)
            ∧ (∀ row, row ∈ rows (mask_merge "left_only"
                                    (frame_of (domain_diff s doc d)))
                      → x ≠ called_entry d row)) as Hs'.
  { intros d x. apply (store_after_run _ doc); [done..|].
    apply frame_of_ok, Hall. }
  assert (∀ d, succeeded (domain_diff s' doc d) = true
               ∧ rows (mask_merge "right_only"
                         (frame_of (domain_diff s' doc d))) = []
               ∧ rows (mask_merge "left_only"
                         (frame_of (domain_diff s' doc d))) = []) as Hnew.
  { intros d.
    destruct (second_run_diff d (s d) (desired_of doc d) (s' d)
                (frame_of (domain_diff s doc d)))
      as (df' & Hm' & Hr & Hl);
      [apply Hwf | apply frame_of_ok, Hall | apply Hs' |].
    unfold domain_diff. by rewrite Hm'. }
  split_and!.
  - intros d. apply list.Forall_forall. intros x Hx.
    apply (second_run_dom_C' d (s d) (desired_of doc d) (s' d)
             (frame_of (domain_diff s doc d)));
      [apply Hwf | apply frame_of_ok, Hall | apply Hs' | done].
  - apply plan_diff_ok. split_and!; [done| |done]. intros d. apply Hnew.
  - apply selected_nothing. intros d. apply Hnew.
  - apply selected_nothing. intros d. apply Hnew.
Qed.

(** X14: a second run finds nothing to do.  When the entries of the
    server have the fields of the calls and a run of
    [update_permissions] ends normally, a second run on the resulting
    server, with the desired file unchanged and the fetches succeeding,
    selects no row to add and no row to remove in any domain: it makes
    the six fetches and no other call.  The entries of the server still
    have the fields of the calls. *)
Theorem second_run_applies_nothing (w w1 : world)
    (added removed : list (domain * list (gmap string cell))) :
  store_wf (store w) →
  fetch_available w →
  update_permissions w = (Ok (added, removed), w1) →
  update_permissions w1 = (Ok (no_selection, no_selection), fetched w1)
  ∧ store_wf (store w1).
Proof.
  intros Hwf Hav Hrun.
  apply update_permissions_ok_inv in Hrun as (diff & Hd & -> & -> & ->).
  apply get_permissions_diff_df_ok_inv in Hd as (_ & doc & Hf & Hplan).
  destruct (second_plan _ _ _ Hwf Hplan) as (Hwf' & Hplan' & Hr & Hl).
  split; [|exact Hwf'].
  unfold update_permissions.
  rewrite bind_run, get_permissions_diff_df_run by (intros h d; apply Hav).
  cbn [desired_file store]. rewrite Hf, Hplan', Hr, Hl. reflexivity.
Qed.

Lemma second_run_applies_nothing_witness :
  update_permissions (update_permissions world_replace).2
  = (Ok (no_selection, no_selection),
     fetched (update_permissions world_replace).2)
  ∧ store_wf (store (update_permissions world_replace).2).
Proof.
  apply (second_run_applies_nothing world_replace
           (update_permissions world_replace).2
           (result_or ([], []) (update_permissions world_replace).1).1
           (result_or ([], []) (update_permissions world_replace).1).2).
  - intros d. destruct d; by_compute.
  - intros h d. reflexivity.
  - rewrite <- surjective_pairing. apply run_ok_or. vm_compute. reflexivity.
Defined.

(** ** Records of one shape *)

Lemma filter_ext_in {A} (P Q : A → Prop) `{!∀ x, Decision (P x)}
    `{!∀ x, Decision (Q x)} (l : list A) :
  (∀ x, x ∈ l → P x ↔ Q x) → filter P l = filter Q l.
Proof.
  induction l as [|x l IH]; intros Hext; [done|].
  rewrite !filter_cons. rewrite IH by (intros y Hy; apply Hext; by right).
  pose proof (Hext x (list_elem_of_here _ _)) as Hx.
  destruct (decide (P x)), (decide (Q x)); tauto || done.
Qed.

Lemma filter_tagged t t' (l : list (gmap string cell)) :
  filter (λ x : gmap string cell, x !! "_merge" = Some (VStr t))
         (tag t' <$> l)
  = if decide (t = t') then tag t' <$> l else [].
Proof.
  induction l as [|x l IH]; cbn [fmap list_fmap]; [by case_decide|].
  rewrite filter_cons, lookup_tag_merge. fold (fmap (tag t') l).
  rewrite IH. repeat case_decide; congruence.
Qed.

(** One domain whose server entries [C] and desired entries [D] all
    have the columns [S]. *)
Section uniform.
Context (S : gset string) (C D : list (gmap string cell)) (df : DataFrame).
Hypothesis HC : Forall (λ e : gmap string cell, dom e = S) C.
Hypothesis HD : Forall (λ e : gmap string cell, dom e = S) D.
Hypothesis Hm :
  merge_outer_indicator (pd_DataFrame C) (pd_DataFrame D) = Ok df.

Lemma uniform_frames :
  pd_DataFrame C = {| columns := S; rows := C |}
  ∧ pd_DataFrame D = {| columns := S; rows := D |}.
Proof.
  split; (apply pd_DataFrame_uniform; [|done]); intros Hnil;
    rewrite Hnil in Hm.
  - by rewrite (proj2 (merge_empty_record_set D)) in Hm.
  - by rewrite (proj1 (merge_empty_record_set C)) in Hm.
Qed.

Lemma uniform_merge :
  merge_outer_indicator {| columns := S; rows := C |}
    {| columns := S; rows := D |} = Ok df.
Proof. destruct uniform_frames as [<- <-]. exact Hm. Qed.

Lemma uniform_dom_C l : l ∈ C → dom l = S.
Proof. intros Hl. by apply (proj1 (list.Forall_forall _ _) HC). Qed.

Lemma uniform_dom_D r : r ∈ D → dom r = S.
Proof. intros Hr. by apply (proj1 (list.Forall_forall _ _) HD). Qed.

Lemma uniform_agree l r : l ∈ C → r ∈ D → agree (S ∩ S) l r ↔ l = r.
Proof.
  intros Hl Hr. rewrite (idemp_L (∩)).
  apply agree_eq; [by apply uniform_dom_C | by apply uniform_dom_D].
Qed.

Lemma uniform_rows :
  rows df
  = (C ≫= left_rows (S ∩ S) S D) ++ right_only_rows (S ∩ S) S C D.
Proof. by pose proof (merge_ok_inv _ _ _ uniform_merge) as (_&_&_&_& ->). Qed.

Lemma uniform_right_only_rows :
  right_only_rows (S ∩ S) S C D
  = tag "right_only" <$> filter (λ r, r ∉ C) D.
Proof.
  unfold right_only_rows.
  rewrite (filter_ext_in _ (λ r, r ∉ C) D).
  - apply list_fmap_ext.
    intros _ r [_ Hr]%list_elem_of_lookup_2%list_elem_of_filter.
    f_equal. apply fill_id. by rewrite (uniform_dom_D r Hr).
  - intros r Hr. split.
    + intros Hno Hin. apply Hno, list.Exists_exists. exists r.
      split; [done|]. by apply uniform_agree.
    + intros Hno (l & Hl & Ha)%list.Exists_exists.
      apply uniform_agree in Ha as ->; done.
Qed.

Lemma uniform_left_rows l :
  l ∈ C →
  filter (λ x : gmap string cell, x !! "_merge" = Some (VStr "left_only"))
         (left_rows (S ∩ S) S D l)
  = if decide (l ∉ D) then [tag "left_only" l] else [].
Proof.
  intros Hl. unfold left_rows.
  destruct (filter (agree (S ∩ S) l) D) as [|m ms] eqn:Hf.
  - rewrite fill_id by (by rewrite (uniform_dom_C l Hl)).
    rewrite filter_cons, lookup_tag_merge, decide_True by done.
    rewrite decide_True; [done|]. intros Hin.
    assert (l ∈ filter (agree (S ∩ S) l) D) as Hin'.
    { apply list_elem_of_filter. split; [|done]. by apply uniform_agree. }
    rewrite Hf in Hin'. by apply elem_of_nil in Hin'.
  - assert (m ∈ filter (agree (S ∩ S) l) D) as [Ha Hm']%list_elem_of_filter
      by (rewrite Hf; left).
    apply uniform_agree in Ha as <-; [|done..].
    rewrite decide_False by (intros Hno; by apply Hno).
    pose proof (filter_tagged "left_only" "both" (l :: ms)) as Hft.
    rewrite decide_False in Hft by done.
    rewrite <- Hft. apply (f_equal (filter _)).
    apply list_fmap_ext. intros i r Hi. cbn.
    assert (r ∈ filter (agree (S ∩ S) l) D) as [Ha Hr]%list_elem_of_filter
      by (rewrite Hf; by eapply list_elem_of_lookup_2).
    apply uniform_agree in Ha as <-; [|done..]. by rewrite (idemp_L (∪)).
Qed.

Lemma uniform_left_only_rows :
  filter (λ x : gmap string cell, x !! "_merge" = Some (VStr "left_only"))
         (C ≫= left_rows (S ∩ S) S D)
  = tag "left_only" <$> filter (λ l, l ∉ D) C.
Proof.
  assert (∀ C0, (∀ l, l ∈ C0 → l ∈ C) →
            filter (λ x : gmap string cell,
                      x !! "_merge" = Some (VStr "left_only"))
                   (C0 ≫= left_rows (S ∩ S) S D)
            = tag "left_only" <$> filter (λ l, l ∉ D) C0) as Hgen.
  { induction C0 as [|l C0 IH]; intros Hsub; [done|].
    cbn [mbind list_bind]. rewrite list.filter_app, filter_cons.
    rewrite uniform_left_rows by (apply Hsub; left).
    rewrite IH by (intros l' Hl'; apply Hsub; by right).
    by case_decide. }
  by apply Hgen.
Qed.

Lemma uniform_no_right_only_left :
  filter (λ x : gmap string cell, x !! "_merge" = Some (VStr "right_only"))
         (C ≫= left_rows (S ∩ S) S D) = [].
Proof.
  apply elem_of_nil_inv. intros x [Hm' Hx]%list_elem_of_filter.
  apply list_elem_of_bind in Hx as (l & Hx & _).
  apply elem_of_left_rows in Hx as [[-> _]|(r & _ & _ & ->)];
    by rewrite lookup_tag_merge in Hm'.
Qed.

(** The added rows are the desired records the server lacks, and the
    removed rows the server's records that are not desired, each as
    often as it is listed. *)
Lemma uniform_selection :
  rows (mask_merge "right_only" df)
  ≡ₚ tag "right_only" <$> filter (λ r, r ∉ C) D
  ∧ rows (mask_merge "left_only" df)
    ≡ₚ tag "left_only" <$> filter (λ l, l ∉ D) C.
Proof.
  unfold mask_merge. cbn [rows]. rewrite uniform_rows, !list.filter_app.
  rewrite uniform_no_right_only_left, uniform_left_only_rows.
  rewrite uniform_right_only_rows, !filter_tagged.
  rewrite decide_True, decide_False by done. by rewrite app_nil_r.
Qed.

End uniform.

(** X15: the diff of records of one shape is their difference.  When the
    server's entries and the desired entries of a domain all have the
    same fields and the merge succeeds, the added rows are the desired
    records the server does not hold, and the removed rows are the
    server's records that are not desired, each with its indicator and
    as often as it is listed. *)
Theorem diff_is_record_difference (s : domain → list (gmap string cell))
    (doc : gmap string (list (gmap string cell))) (d : domain)
    (S : gset string) (df : DataFrame) :
  Forall (λ e, dom e = S) (s d) →
  Forall (λ e, dom e = S) (desired_of doc d) →
  domain_diff s doc d = Ok df →
  rows (mask_merge "right_only" df)
  ≡ₚ tag "right_only" <$> filter (λ r, r ∉ s d) (desired_of doc d)
  ∧ rows (mask_merge "left_only" df)
    ≡ₚ tag "left_only" <$> filter (λ l, l ∉ desired_of doc d) (s d).
Proof. intros HC HD Hm. by apply (uniform_selection S). Qed.

Lemma diff_is_record_difference_witness :
  let s := store world_replace in
  let doc := example_document [entry Global "admin" "ADMINISTER";
                               entry Global "jdoe" "VIEW"] in
  let df := frame_of (domain_diff s doc Global) in
  rows (mask_merge "right_only" df)
  ≡ₚ tag "right_only" <$> filter (λ r, r ∉ s Global) (desired_of doc Global)
  ∧ rows (mask_merge "left_only" df)
    ≡ₚ tag "left_only" <$> filter (λ l, l ∉ desired_of doc Global) (s Global).
Proof.
  apply (diff_is_record_difference (store world_replace)
           (example_document [entry Global "admin" "ADMINISTER";
                              entry Global "jdoe" "VIEW"])
           Global (list_to_set (call_columns Global))).
  - by_compute.
  - by_compute.
  - apply frame_of_ok. vm_compute. reflexivity.
Defined.

Lemma called_entry_tag d t (r : gmap string cell) :
  dom r = list_to_set (call_columns d) → "_merge" ∉ dom r →
  called_entry d (tag t r) = r.
Proof.
  intros Hdom Hm. apply map_eq. intros k. rewrite lookup_called_entry.
  case_decide as Hk.
  - apply lookup_tag_ne. intros ->. apply Hm. rewrite Hdom.
    by apply elem_of_list_to_set.
  - symmetry. apply not_elem_of_dom. rewrite Hdom.
    by rewrite elem_of_list_to_set.
Qed.

(** X16: a run that ends normally brings the server to the desired state.
    When the server's entries and the desired entries have the fields of
    the calls, the entries the server holds after [update_permissions]
    are, in every domain, exactly the desired ones. *)
Theorem run_reaches_desired_state (w w1 : world)
    (doc : gmap string (list (gmap string cell)))
    (added removed : list (domain * list (gmap string cell))) :
  store_wf (store w) →
  desired_file w = inr doc →
  desired_wf doc →
  update_permissions w = (Ok (added, removed), w1) →
  same_entries (store w1) (desired_of doc).
Proof.
  intros Hwf Hf Hdwf Hrun d x.
  apply update_permissions_ok_inv in Hrun as (diff & Hd & -> & -> & ->).
  cbn [store].
  apply get_permissions_diff_df_ok_inv in Hd as (_ & doc' & Hf' & Hplan).
  assert (doc' = doc) as -> by congruence.
  pose proof (proj1 (plan_diff_ok _ _ _) Hplan) as (Hk & Hall & _).
  pose proof (frame_of_ok _ (Hall d)) as Hdf.
  rewrite (store_after_run _ doc diff d _ x Hwf Hplan Hdf).
  destruct (uniform_selection _ _ _ _ (Hwf d) (Hdwf d) Hdf) as [Hr Hl].
  pose proof (merge_ok_inv _ _ _ (uniform_merge _ _ _ _ (Hwf d) (Hdwf d) Hdf))
    as (_ & Hres & _). cbn in Hres.
  assert (∀ t r, r ∈ store w d ∨ r ∈ desired_of doc d →
                 called_entry d (tag t r) = r) as Hce.
  { intros t r Hin.
    assert (dom r = list_to_set (call_columns d)) as Hdom.
    { destruct Hin as [Hin|Hin].
      - by apply (proj1 (list.Forall_forall _ _) (Hwf d)).
      - by apply (proj1 (list.Forall_forall _ _) (Hdwf d)). }
    apply called_entry_tag; [done|]. rewrite Hdom.
    unfold reserved in Hres. set_solver. }
  setoid_rewrite Hr. setoid_rewrite Hl. split.
  - intros [Hin Hkeep].
    destruct (decide (x ∈ desired_of doc d)) as [|Hno]; [done|]. exfalso.
    destruct Hin as [Hx|(row & Hrow & ->)].
    + apply (Hkeep (tag "left_only" x)); [|by rewrite Hce by auto].
      apply list_elem_of_fmap. exists x. split; [done|].
      by apply list_elem_of_filter.
    + apply list_elem_of_fmap in Hrow
        as (r & -> & [Hrno Hrin]%list_elem_of_filter).
      rewrite Hce in Hno by auto. done.
  - intros Hx. split.
    + destruct (decide (x ∈ store w d)); [by left|]. right.
      exists (tag "right_only" x). split; [|by rewrite Hce by auto].
      apply list_elem_of_fmap. exists x. split; [done|].
      by apply list_elem_of_filter.
    + intros row (l & -> & [Hlno Hlin]%list_elem_of_filter)%list_elem_of_fmap.
      rewrite Hce by auto. by intros ->.
Qed.

Lemma run_reaches_desired_state_witness :
  same_entries (store (update_permissions world_replace).2)
    (desired_of (example_document [entry Global "admin" "ADMINISTER";
                                   entry Global "jdoe" "VIEW"])).
Proof.
  apply (run_reaches_desired_state world_replace
           (update_permissions world_replace).2
           (example_document [entry Global "admin" "ADMINISTER";
                              entry Global "jdoe" "VIEW"])
           (result_or ([], []) (update_permissions world_replace).1).1
           (result_or ([], []) (update_permissions world_replace).1).2).
  - intros d. destruct d; by_compute.
  - reflexivity.
  - intros d. destruct d; by_compute.
  - rewrite <- surjective_pairing. apply run_ok_or. vm_compute. reflexivity.
Defined.

(** ** Reports of a run that fails *)

Lemma run_raise {A} (x : result A * world) e :
  x.1 = Raise e → x = (Raise e, x.2).
Proof. destruct x as [r w]. cbn. by intros ->. Qed.

Lemma keeps_files_client_get d : keeps files (client_get d).
Proof.
  apply keeps_bind; [apply keeps_files_client_call | by intros _ w].
Qed.

Lemma keeps_files_get_desired_permissions_df :
  keeps files get_desired_permissions_df.
Proof.
  intros w. rewrite get_desired_permissions_df_run.
  by destruct (desired_file w).
Qed.

Lemma keeps_files_permission_call mk d r :
  keeps files (permission_call mk d r).
Proof.
  apply keeps_bind; [apply keeps_lift | intros args].
  apply keeps_files_client_call.
Qed.

Lemma get_current_permissions_df_raise_files w e w1 :
  get_current_permissions_df w = (Raise e, w1) → files w1 = files w.
Proof.
  unfold get_current_permissions_df, get_current_permissions,
    BambooAccess.write_all_permissions_df_yaml,
    BambooAccess.get_all_permissions_df_yaml,
    BambooAccess.get_all_permissions_df, BambooAccess.get_all_permissions.
  rewrite !bind_run.
  pose proof (keeps_mapM files (λ d, es ← client_get d; mret (d, es)) domains
                (λ d, keeps_bind files _ _ (keeps_files_client_get d)
                        (λ es, keeps_ret files (d, es))) w) as Hk.
  destruct (mapM (M := M) _ domains w) as [[ps|e'] w0]; cbn in Hk.
  - cbn. rewrite bind_run, write_yaml_run. cbn. discriminate.
  - by intros [= _ <-].
Qed.

Lemma get_permissions_diff_df_written w :
  written (get_permissions_diff_df w).2 = written w
  ∨ written (get_permissions_diff_df w).2
    = written w ++ ["current_permissions.yaml"].
Proof.
  unfold get_permissions_diff_df, get_permissions_diff. rewrite bind_run.
  destruct (get_current_permissions_df w) as [[cur|e] w1] eqn:Hc.
  - apply get_current_permissions_df_ok_inv in Hc as [-> ->]. right.
    rewrite <- written_fetched. unfold written. f_equal.
    apply (keeps_bind files get_desired_permissions_df
             (λ des, lift (merge_all (current_frames (store w)) des))
             keeps_files_get_desired_permissions_df
             (λ des, keeps_lift files _)).
  - left. unfold written. f_equal.
    by apply (get_current_permissions_df_raise_files w e).
Qed.

Lemma update_permissions_written w :
  written (update_permissions w).2 = written w
  ∨ written (update_permissions w).2
    = written w ++ ["current_permissions.yaml"].
Proof.
  assert (written (update_permissions w).2
          = written (get_permissions_diff_df w).2) as ->;
    [|apply get_permissions_diff_df_written].
  unfold update_permissions. rewrite bind_run.
  destruct (get_permissions_diff_df w) as [[diff|e] w1]; [|done].
  cbn [snd]. unfold written. f_equal.
  apply (keeps_bind files
           (for_each (selected "right_only" diff)
              (λ p, for_each p.2 (permission_call Grant p.1)))
           (λ _, for_each (selected "left_only" diff)
                   (λ p, for_each p.2 (permission_call Revoke p.1))
                 ≫= λ _, mret (selected "right_only" diff,
                               selected "left_only" diff))).
  - apply keeps_for_each. intros p. apply keeps_for_each. intros r.
    apply keeps_files_permission_call.
  - intros _. apply keeps_bind; [|intros _; apply keeps_ret].
    apply keeps_for_each. intros p. apply keeps_for_each. intros r.
    apply keeps_files_permission_call.
Qed.

(** X17: a report writer that ends with an exception has written no report.
    The exception is that of its run of [update_permissions], which
    came first: whatever that run granted or revoked before it failed
    stays on the server, and the only file it can have written is the
    export of the current state. *)
Theorem failed_update_writes_no_report (f : string) (w w' : world)
    (e : exn) :
  write_permissions_diff_df_yaml_added f w = (Raise e, w')
  ∨ write_permissions_diff_df_yaml_removed f w = (Raise e, w') →
  update_permissions w = (Raise e, w')
  ∧ (written w' = written w
     ∨ written w' = written w ++ ["current_permissions.yaml"]).
Proof.
  rewrite write_added_run, write_removed_run.
  pose proof (update_permissions_written w) as Hw.
  destruct (update_permissions w) as [[u|e'] w1]; cbn [snd] in Hw.
  - intros [?|?]; discriminate.
  - by intros [[= <- <-]|[= <- <-]].
Qed.

Lemma failed_update_writes_no_report_witness :
  let w' := (write_permissions_diff_df_yaml_added
               "permissions_diff_added.yaml" world_grant_error).2 in
  let e := ClientError (Grant Global [VStr "BUILD"; VStr "USER"; VStr "jdoe"])
  in
  update_permissions world_grant_error = (Raise e, w')
  ∧ (written w' = written world_grant_error
     ∨ written w' = written world_grant_error ++ ["current_permissions.yaml"]).
Proof.
  apply (failed_update_writes_no_report "permissions_diff_added.yaml"
           world_grant_error).
  left. apply run_raise. vm_compute. reflexivity.
Defined.

(** ** The reports of the main program *)

(** X18: the removed report of the main program is empty.  The report is
    written by the second of two runs of [update_permissions]; when the
    server's entries have the fields of the calls and the main program
    ends normally, the first run has already applied the diff, so the
    last file written, [permissions_diff_removed.yaml], lists no record
    in any domain, whatever the first run revoked. *)
Theorem main_removed_report_is_empty (w w' : world) :
  store_wf (store w) →
  main w = (Ok (), w') →
  list.last (files w')
  = Some ("permissions_diff_removed.yaml",
          keyed "_diff_removed" no_selection).
Proof.
  intros Hwf H. unfold main in H.
  apply bind_ok_inv in H as (ys & w1 & H1 & H).
  apply bind_ok_inv in H as (ys2 & w2 & H2 & H).
  apply bind_ok_inv in H as (ys3 & w3 & H3 & [= <-]).
  apply write_permissions_diff_df_yaml_ok_inv in H1 as ->.
  rewrite write_added_run in H2.
  destruct (update_permissions (with_file (fetched w) _ _))
    as [[[a1 r1]|e] v1] eqn:Hu1; [|discriminate].
  injection H2 as _ <-. rewrite write_removed_run in H3.
  destruct (update_permissions (with_file v1 _ _))
    as [[[a2 r2]|e] v2] eqn:Hu2; [|discriminate].
  injection H3 as _ <-. cbn [files with_file]. rewrite last_snoc.
  do 3 f_equal. cbn [snd].
  apply update_permissions_ok_inv in Hu1 as (diff1 & Hd1 & -> & -> & ->).
  apply get_permissions_diff_df_ok_inv in Hd1 as (_ & doc & Hf & Hplan).
  cbn [store desired_file with_file fetched] in Hf, Hplan.
  apply update_permissions_ok_inv in Hu2 as (diff2 & Hd2 & _ & -> & _).
  apply get_permissions_diff_df_ok_inv in Hd2 as (_ & doc2 & Hf2 & Hplan2).
  cbn [store desired_file with_file fetched] in Hf2, Hplan2.
  assert (doc2 = doc) as -> by congruence.
  destruct (second_plan _ _ _ Hwf Hplan) as (_ & Hplan' & _ & Hl).
  pose proof (eq_trans (eq_sym Hplan2) Hplan') as Heq.
  injection Heq as ->. exact Hl.
Qed.

Lemma main_removed_report_is_empty_witness :
  list.last (files (main world_replace).2)
  = Some ("permissions_diff_removed.yaml",
          keyed "_diff_removed" no_selection).
Proof.
  apply (main_removed_report_is_empty world_replace).
  - intros d. destruct d; by_compute.
  - apply run_ok_unit. vm_compute. reflexivity.
Defined.

(** In the replacement scenario the first run revokes the EDIT entry of
    [jdoe], and the removed report does not mention it. *)
Example removed_report_misses_the_revoke :
  Revoke Global [VStr "EDIT"; VStr "USER"; VStr "jdoe"]
    ∈ trace (main world_replace).2
  ∧ list.last (files (main world_replace).2)
    = Some ("permissions_diff_removed.yaml",
            keyed "_diff_removed" no_selection).
Proof.
  split; [|by_compute].
  assert (trace (main world_replace).2
          = (Fetch <$> domains) ++ (Fetch <$> domains)
            ++ [Grant Global [VStr "VIEW"; VStr "USER"; VStr "jdoe"];
                Revoke Global [VStr "EDIT"; VStr "USER"; VStr "jdoe"]]
            ++ (Fetch <$> domains)) as -> by (vm_compute; reflexivity).
  set_solver.
Qed.

(** ** A fetch that fails *)

Lemma fetch_all_world ds w :
  (mapM (λ d, es ← client_get d; mret (d, es)) ds w).2
  = with_trace w (trace (mapM (λ d, es ← client_get d; mret (d, es)) ds w).2).
Proof.
  revert w. induction ds as [|d ds IH]; intros w; [by destruct w|].
  cbn. rewrite bind_run, bind_run.
  destruct (fails w (trace w) (Fetch d)) eqn:Hf.
  - by rewrite client_get_fail.
  - rewrite client_get_ok by done. cbn. rewrite bind_run.
    specialize (IH (with_trace w (trace w ++ [Fetch d]))).
    destruct (mapM (M := M) _ ds _) as [[ys|e] w1]; cbn in *; by rewrite IH.
Qed.

Lemma runs_get_all_permissions :
  runs is_fetch BambooAccess.get_all_permissions.
Proof.
  apply runs_mapM. intros d.
  apply runs_bind; [apply runs_client_get | intros ?; apply runs_ret].
Qed.

Lemma stops_get_all_permissions :
  stops_at_failed_fetch BambooAccess.get_all_permissions.
Proof.
  intros w pre d (post & Ht & Hf).
  destruct (runs_get_all_permissions w) as (qs & (Hqs & _) & Hall & Hd).
  rewrite Hqs in Ht. apply app_inv_head in Ht. subst qs.
  destruct (Hd pre (Fetch d) post eq_refl Hf) as [-> Hres].
  split; [by apply Forall_app in Hall as [? _]|].
  pose proof (fetch_all_world domains w) as Hw.
  unfold BambooAccess.get_all_permissions in *.
  destruct (mapM (M := M) _ domains w) as [r w1]. cbn in *.
  by rewrite Hres, Hw, Hqs.
Qed.

(** The failing fetch of a computation whose second part makes no fetch
    is a fetch of its first part. *)
Lemma failed_fetch_in_head {A B} P (m : M A) (f : A → M B) w pre d :
  runs P m → (∀ a, runs (λ q, ¬ is_fetch q) (f a)) →
  fetch_fails_in (m ≫= f) w pre d → fetch_fails_in m w pre d.
Proof.
  intros Hm Hf (post & Ht & Hfail). rewrite bind_run in Ht.
  destruct (Hm w) as (qs & (Hqs & _) & _ & Hd).
  destruct (m w) as [[a|e] w1] eqn:Hmw; cbn in Hqs, Hd;
    [exfalso | exists post; by rewrite Hmw].
  destruct (Hf a w1) as (cs & (Hcs & _) & Hall & _).
  rewrite Hcs, Hqs, <- (assoc_L (++)) in Ht. apply app_inv_head in Ht.
  apply app_eq_inv in Ht as [(k & Hk & Hk')|(k & Hk & Hk')].
  - destruct k as [|q k]; cbn in Hk'.
    + rewrite <- Hk' in Hall. apply Forall_inv in Hall.
      apply Hall. by exists d.
    + injection Hk' as <- ->.
      by destruct (Hd pre (Fetch d) k Hk Hfail) as [_ ?].
  - rewrite Hk' in Hall. apply Forall_app in Hall as [_ Hall].
    apply Forall_inv in Hall. apply Hall. by exists d.
Qed.

Lemma stops_bind {A B} P (m : M A) (f : A → M B) :
  runs P m → (∀ a, runs (λ q, ¬ is_fetch q) (f a)) →
  stops_at_failed_fetch m → stops_at_failed_fetch (m ≫= f).
Proof.
  intros Hm Hf Hs w pre d H.
  apply (failed_fetch_in_head P) in H; [|done..].
  destruct (Hs w pre d H) as [Hall Heq]. split; [done|].
  by apply bind_raise.
Qed.

Lemma runs_get_current_permissions_df :
  runs is_fetch get_current_permissions_df.
Proof.
  apply runs_bind; [apply runs_get_current_permissions |].
  intros ?; apply runs_ret.
Qed.

Lemma stops_get_current_permissions_df :
  stops_at_failed_fetch get_current_permissions_df.
Proof.
  apply (stops_bind is_fetch);
    [apply runs_get_current_permissions | intros ?; apply runs_ret |].
  apply (stops_bind is_fetch).
  { apply runs_bind; [| intros ?; apply runs_ret].
    apply runs_bind; [| intros ?; apply runs_ret].
    apply runs_get_all_permissions. }
  { intros ys. apply runs_bind; [apply runs_write_yaml |].
    intros ?; apply runs_ret. }
  apply (stops_bind is_fetch).
  { apply runs_bind; [| intros ?; apply runs_ret].
    apply runs_get_all_permissions. }
  { intros ?; apply runs_ret. }
  apply (stops_bind is_fetch);
    [apply runs_get_all_permissions | intros ?; apply runs_ret |].
  apply stops_get_all_permissions.
Qed.

Lemma stops_get_permissions_diff_df :
  stops_at_failed_fetch get_permissions_diff_df.
Proof.
  apply (stops_bind is_fetch);
    [apply runs_get_current_permissions_df | |
     apply stops_get_current_permissions_df].
  intros cur. apply runs_bind; [| intros ?; apply runs_lift].
  apply runs_bind; [apply runs_get_desired_permissions | intros doc].
  apply runs_bind; [apply runs_lift | intros ?; apply runs_ret].
Qed.

Lemma runs_apply_loops mk (sel : list (domain * list (gmap string cell))) :
  (∀ d args, ¬ is_fetch (mk d args)) →
  runs (λ q, ¬ is_fetch q)
       (for_each sel (λ p, for_each p.2 (permission_call mk p.1))).
Proof.
  intros Hmk. eapply runs_mono; [|apply runs_apply].
  intros q (d & args & ->). apply Hmk.
Qed.

Lemma stops_update_permissions : stops_at_failed_fetch update_permissions.
Proof.
  apply (stops_bind is_fetch);
    [apply runs_get_permissions_diff_df | |
     apply stops_get_permissions_diff_df].
  intros diff. apply runs_bind.
  { apply (runs_apply_loops Grant). by intros d args [d' ?]. }
  intros _. apply runs_bind; [| intros _; apply runs_ret].
  apply (runs_apply_loops Revoke). by intros d args [d' ?].
Qed.

Lemma stops_write_permissions_diff_df_yaml f :
  stops_at_failed_fetch (write_permissions_diff_df_yaml f).
Proof.
  apply (stops_bind is_fetch).
  { apply runs_bind; [apply runs_get_permissions_diff_df |].
    intros ?; apply runs_ret. }
  { intros ys. apply runs_bind; [apply runs_write_yaml |].
    intros ?; apply runs_ret. }
  apply (stops_bind is_fetch);
    [apply runs_get_permissions_diff_df | intros ?; apply runs_ret |].
  apply stops_get_permissions_diff_df.
Qed.

Lemma stops_write_added f :
  stops_at_failed_fetch (write_permissions_diff_df_yaml_added f).
Proof.
  apply (stops_bind (λ _, True));
    [apply runs_update_permissions | | apply stops_update_permissions].
  intros u. apply runs_bind; [apply runs_write_yaml |].
  intros ?; apply runs_ret.
Qed.

Lemma stops_write_removed f :
  stops_at_failed_fetch (write_permissions_diff_df_yaml_removed f).
Proof.
  apply (stops_bind (λ _, True));
    [apply runs_update_permissions | | apply stops_update_permissions].
  intros u. apply runs_bind; [apply runs_write_yaml |].
  intros ?; apply runs_ret.
Qed.

Lemma runs_write_added f :
  runs (λ _, True) (write_permissions_diff_df_yaml_added f).
Proof.
  apply runs_bind; [apply runs_update_permissions | intros u].
  apply runs_bind; [apply runs_write_yaml | intros ?; apply runs_ret].
Qed.

Lemma runs_write_removed f :
  runs (λ _, True) (write_permissions_diff_df_yaml_removed f).
Proof.
  apply runs_bind; [apply runs_update_permissions | intros u].
  apply runs_bind; [apply runs_write_yaml | intros ?; apply runs_ret].
Qed.

(** The failing fetch of two computations in a row is a fetch of the
    first, or the first ends normally and it is a fetch of the second. *)
Lemma fetch_fails_in_bind {A B} P (m : M A) (f : A → M B) w pre d :
  runs P m → (∀ a, runs P (f a)) →
  fetch_fails_in (m ≫= f) w pre d →
  fetch_fails_in m w pre d
  ∨ ∃ a pre', m w = (Ok a, (m w).2) ∧ fetch_fails_in (f a) (m w).2 pre' d.
Proof.
  intros Hm Hf (post & Ht & Hfail). rewrite bind_run in Ht.
  destruct (Hm w) as (qs & (Hqs & Hfl & _) & _ & Hd).
  destruct (m w) as [[a|e] w1] eqn:Hmw; cbn in Hqs, Hfl, Hd;
    [|left; exists post; by rewrite Hmw].
  destruct (Hf a w1) as (cs & (Hcs & _) & _ & _).
  rewrite Hcs, Hqs, <- (assoc_L (++)) in Ht. apply app_inv_head in Ht.
  apply app_eq_inv in Ht as [(k & Hk & Hk')|(k & Hk & Hk')].
  - destruct k as [|q k]; cbn in Hk'.
    + right. exists a, []. split; [done|]. exists post. cbn.
      rewrite app_nil_r in Hk. subst pre.
      by rewrite Hcs, <- Hk', Hfl, Hqs, app_nil_r.
    + injection Hk' as <- ->.
      by destruct (Hd pre (Fetch d) k Hk Hfail) as [_ ?].
  - right. exists a, k. split; [done|]. exists post. cbn.
    rewrite Hcs, Hk', Hfl, Hqs. split; [done|].
    by rewrite <- (assoc_L (++)), <- Hk.
Qed.

Lemma main_fetch_failure w pre d :
  fetch_fails_in main w pre d →
  ∃ w0 fs,
    w0 ∈ pass_starts w
    ∧ Forall is_fetch fs
    ∧ main w = (Raise (ClientError (Fetch d)),
                with_trace w0 (trace w0 ++ fs ++ [Fetch d])).
Proof.
  intros H. unfold main in *.
  assert (∀ x : list (domain * list (gmap string cell)),
            runs (λ _, True) (mret () : M unit)) as Hret
    by (intros; apply runs_ret).
  assert (∀ x : list (domain * list (gmap string cell)),
            runs (λ _, True)
              (write_permissions_diff_df_yaml_removed
                 "permissions_diff_removed.yaml" ≫= λ _, mret () : M unit))
    as H3 by (intros; apply runs_bind; [apply runs_write_removed | done]).
  assert (∀ x : list (domain * list (gmap string cell)),
            runs (λ _, True)
              (write_permissions_diff_df_yaml_added
                 "permissions_diff_added.yaml" ≫= λ _,
               write_permissions_diff_df_yaml_removed
                 "permissions_diff_removed.yaml" ≫= λ _, mret () : M unit))
    as H2 by (intros; apply runs_bind; [apply runs_write_added | done]).
  apply (fetch_fails_in_bind (λ _, True)) in H
      as [H|(a1 & pre1 & Hok1 & H)]; [| |
    eapply runs_mono; [|apply runs_write_permissions_diff_df_yaml]; done
    | done].
  { destruct (stops_write_permissions_diff_df_yaml _ w pre d H) as [Hall Heq].
    exists w, pre. split_and!; [by left | done |]. by apply bind_raise. }
  rewrite (bind_ok _ _ _ _ _ Hok1).
  set (w1 := (write_permissions_diff_df_yaml "permissions_diff.yaml" w).2)
    in *.
  apply (fetch_fails_in_bind (λ _, True)) in H
      as [H|(a2 & pre2 & Hok2 & H)]; [| | apply runs_write_added | done].
  { destruct (stops_write_added _ w1 pre1 d H) as [Hall Heq].
    exists w1, pre1. split_and!; [by right; left | done |].
    by apply bind_raise. }
  rewrite (bind_ok _ _ _ _ _ Hok2).
  set (w2 := (write_permissions_diff_df_yaml_added
                "permissions_diff_added.yaml" w1).2) in *.
  apply (fetch_fails_in_bind (λ _, True)) in H
      as [H|(a3 & pre3 & Hok3 & H)]; [| | apply runs_write_removed | done].
  { destruct (stops_write_removed _ w2 pre2 d H) as [Hall Heq].
    exists w2, pre2. split_and!; [by right; right; left | done |].
    by apply bind_raise. }
  destruct H as (post & Ht & _). cbn in Ht.
  rewrite <- (app_nil_r (trace _)) in Ht at 1.
  apply app_inv_head in Ht. by destruct pre3.
Qed.

(** C4 (amended): a fetch that fails ends the run.  When a fetch fails in
    a run of [update_permissions], the run ends there with the client's
    exception, as [get_permissions_diff] does: the calls made are
    fetches only, and the server, the files and the output are as
    before, so that no domain is diffed, reconciled or reported.  When a
    fetch fails in a run of the main program, the program ends there
    with the client's exception: since the start of the pass in which
    the fetch failed it has made fetch calls only and written no
    file. *)
Theorem fetch_failure_aborts_run (w : world) (pre : list request)
    (d : domain) :
  (fetch_fails_in update_permissions w pre d →
   Forall is_fetch pre
   ∧ get_permissions_diff w
     = (Raise (ClientError (Fetch d)),
        with_trace w (trace w ++ pre ++ [Fetch d]))
   ∧ update_permissions w
     = (Raise (ClientError (Fetch d)),
        with_trace w (trace w ++ pre ++ [Fetch d])))
  ∧ (fetch_fails_in main w pre d →
     ∃ w0 fs,
       w0 ∈ pass_starts w
       ∧ Forall is_fetch fs
       ∧ main w = (Raise (ClientError (Fetch d)),
                   with_trace w0 (trace w0 ++ fs ++ [Fetch d]))).
Proof.
  split; [|apply main_fetch_failure].
  intros H. pose proof (stops_update_permissions w pre d H) as [Hall Hu].
  split_and!; [done| |done].
  change get_permissions_diff with get_permissions_diff_df.
  apply stops_get_permissions_diff_df.
  apply (failed_fetch_in_head is_fetch) in H;
    [done | apply runs_get_permissions_diff_df |].
  intros diff. apply runs_bind.
  { apply (runs_apply_loops Grant). by intros ? ? [? ?]. }
  intros _. apply runs_bind; [| intros _; apply runs_ret].
  apply (runs_apply_loops Revoke). by intros ? ? [? ?].
Qed.

Lemma fetch_failure_aborts_run_witness :
  (Forall is_fetch [Fetch Global; Fetch BuildPlan; Fetch Project]
   ∧ get_permissions_diff world_fetch_error
     = (Raise (ClientError (Fetch Deployment)),
        with_trace world_fetch_error
          (trace world_fetch_error
           ++ [Fetch Global; Fetch BuildPlan; Fetch Project]
           ++ [Fetch Deployment]))
   ∧ update_permissions world_fetch_error
     = (Raise (ClientError (Fetch Deployment)),
        with_trace world_fetch_error
          (trace world_fetch_error
           ++ [Fetch Global; Fetch BuildPlan; Fetch Project]
           ++ [Fetch Deployment])))
  ∧ ∃ w0 fs,
      w0 ∈ pass_starts world_late_fetch_error
      ∧ Forall is_fetch fs
      ∧ main world_late_fetch_error
        = (Raise (ClientError (Fetch Deployment)),
           with_trace w0 (trace w0 ++ fs ++ [Fetch Deployment])).
Proof.
  split.
  - apply (proj1 (fetch_failure_aborts_run world_fetch_error
                    [Fetch Global; Fetch BuildPlan; Fetch Project]
                    Deployment)).
    exists []. split; vm_compute; reflexivity.
  - apply (proj2 (fetch_failure_aborts_run world_late_fetch_error
                    ((Fetch <$> domains) ++ (Fetch <$> domains)
                     ++ [Grant Global [VStr "VIEW"; VStr "USER"; VStr "jdoe"];
                         Revoke Global [VStr "EDIT"; VStr "USER"; VStr "jdoe"];
                         Fetch Global; Fetch BuildPlan; Fetch Project])
                    Deployment)).
    exists []. split; vm_compute; reflexivity.
Defined.

(** C4, as the spec has it, fails in Scenario D: only the deployment
    fetch fails, yet the main program ends with that exception, writes
    no report for any domain and never grants the pending global
    permission. *)
Lemma fetch_failure_not_isolated :
  fetch_fails_only Deployment world_fetch_error
  ∧ (main world_fetch_error).1 = Raise (ClientError (Fetch Deployment))
  ∧ files (main world_fetch_error).2 = []
  ∧ trace (main world_fetch_error).2
    = [Fetch Global; Fetch BuildPlan; Fetch Project; Fetch Deployment].
Proof.
  split; [intros h d'; destruct d'; reflexivity|].
  vm_compute. done.
Qed.

(** In [world_late_fetch_error] the fetch fails in the third pass: the
    first two passes have written their reports and made the grant and
    the revoke, and the removed report is never written. *)
Example late_fetch_failure :
  (main world_late_fetch_error).1 = Raise (ClientError (Fetch Deployment))
  ∧ written (main world_late_fetch_error).2
    = ["current_permissions.yaml"; "permissions_diff.yaml";
       "current_permissions.yaml"; "permissions_diff_added.yaml"]
  ∧ trace (main world_late_fetch_error).2
    = (Fetch <$> domains) ++ (Fetch <$> domains)
      ++ [Grant Global [VStr "VIEW"; VStr "USER"; VStr "jdoe"];
          Revoke Global [VStr "EDIT"; VStr "USER"; VStr "jdoe"];
          Fetch Global; Fetch BuildPlan; Fetch Project; Fetch Deployment].
Proof. split_and!; vm_compute; reflexivity. Qed.

(** ** A call that fails *)

Lemma keeps_apply_loops {C} (field : world → C) mk
    (sel : list (domain * list (gmap string cell))) :
  (∀ q, keeps field (client_call q)) →
  keeps field (for_each sel (λ p, for_each p.2 (permission_call mk p.1))).
Proof.
  intros Hc. apply keeps_for_each. intros p. apply keeps_for_each.
  intros r. apply keeps_bind; [apply keeps_lift | intros args; apply Hc].
Qed.

(** The apply loops write no file and print nothing, however they
    end. *)
Lemma update_permissions_after_diff {C} (field : world → C) w diff w1 :
  (∀ q, keeps field (client_call q)) →
  get_permissions_diff_df w = (Ok diff, w1) →
  field (update_permissions w).2 = field w1.
Proof.
  intros Hc Hd. unfold update_permissions. rewrite bind_run, Hd.
  apply (keeps_bind field
           (for_each (selected "right_only" diff)
              (λ p, for_each p.2 (permission_call Grant p.1)))
           (λ _, for_each (selected "left_only" diff)
                   (λ p, for_each p.2 (permission_call Revoke p.1))
                 ≫= λ _, mret (selected "right_only" diff,
                               selected "left_only" diff))).
  - by apply keeps_apply_loops.
  - intros _. apply keeps_bind; [|intros _; apply keeps_ret].
    by apply keeps_apply_loops.
Qed.

(** A fetch of [update_permissions] is a fetch of its diff phase: the
    apply loops make none. *)
Lemma failed_fetch_of_update w pre d :
  fetch_fails_in update_permissions w pre d →
  fetch_fails_in get_permissions_diff_df w pre d.
Proof.
  apply (failed_fetch_in_head is_fetch);
    [apply runs_get_permissions_diff_df |].
  intros diff. apply runs_bind.
  { apply (runs_apply_loops Grant). by intros ? ? [? ?]. }
  intros _. apply runs_bind; [| intros _; apply runs_ret].
  apply (runs_apply_loops Revoke). by intros ? ? [? ?].
Qed.

(** C6 (amended): a client call that fails ends [update_permissions]:
    its exception reaches the caller and no later call of the batch is
    made.  Nothing is recorded against the record: nothing is printed,
    and no file is written but the export of the current state, which a
    run writes after its fetches and before the diff. *)
Theorem failed_call_ends_update (w : world) pre q post :
  trace (update_permissions w).2 = trace w ++ pre ++ q :: post →
  fails w (trace w ++ pre) q = true →
  post = []
  ∧ (update_permissions w).1 = Raise (ClientError q)
  ∧ stdout (update_permissions w).2 = stdout w
  ∧ (is_fetch q ∧ files (update_permissions w).2 = files w
     ∨ ¬ is_fetch q ∧ files (update_permissions w).2 = files (fetched w)).
Proof.
  intros Ht Hf.
  destruct (runs_update_permissions w) as (qs & (Hqs & _) & _ & Hd).
  pose proof Ht as Ht'. rewrite Hqs in Ht'. apply app_inv_head in Ht'.
  destruct (Hd pre q post Ht' Hf) as [-> Hres]. clear Ht' Hd Hqs qs.
  split; [done|]. split; [done|].
  assert (∀ d, q = Fetch d →
            get_permissions_diff_df w
            = (Raise (ClientError (Fetch d)),
               with_trace w (trace w ++ pre ++ [Fetch d]))) as Hfetch.
  { intros d ->. apply stops_get_permissions_diff_df.
    apply failed_fetch_of_update. by exists []. }
  destruct (runs_get_permissions_diff_df w) as (fs & (Hfs & _) & Hall & _).
  destruct (get_permissions_diff_df w) as [[diff|e] w1] eqn:Hdiff.
  - pose proof (get_permissions_diff_df_ok_inv _ _ _ Hdiff) as [-> _].
    rewrite (update_permissions_after_diff stdout _ _ _
               keeps_stdout_client_call Hdiff).
    rewrite (update_permissions_after_diff files _ _ _
               keeps_files_client_call Hdiff).
    split; [done|]. right. split; [|done]. intros [d ->].
    by specialize (Hfetch d eq_refl).
  - assert (update_permissions w = (Raise e, w1)) as Hu
      by (by apply bind_raise).
    rewrite Hu in Ht |- *. cbn in Ht, Hfs |- *. rewrite Hfs in Ht.
    apply app_inv_head in Ht. subst fs.
    apply Forall_app in Hall as [_ Hall]. apply Forall_inv in Hall.
    destruct Hall as [d ->]. specialize (Hfetch d eq_refl).
    injection Hfetch as _ ->. split; [done|]. left. split; [by exists d|done].
Qed.

Lemma failed_call_ends_update_witness :
  let q := Grant Global [VStr "BUILD"; VStr "USER"; VStr "jdoe"] in
  @nil request = []
  ∧ (update_permissions world_grant_error).1 = Raise (ClientError q)
  ∧ stdout (update_permissions world_grant_error).2
    = stdout world_grant_error
  ∧ (is_fetch q
     ∧ files (update_permissions world_grant_error).2
       = files world_grant_error
     ∨ ¬ is_fetch q
       ∧ files (update_permissions world_grant_error).2
         = files (fetched world_grant_error)).
Proof.
  apply (failed_call_ends_update world_grant_error (Fetch <$> domains)).
  - vm_compute. reflexivity.
  - vm_compute. reflexivity.
Defined.

(** C6, as the spec has it, fails: two grants are due, the first one
    fails, and the second is never attempted. *)
Lemma failed_grant_stops_batch :
  let q1 := Grant Global [VStr "BUILD"; VStr "USER"; VStr "jdoe"] in
  let q2 := Grant Global [VStr "VIEW"; VStr "USER"; VStr "asmith"] in
  (∃ diff, (get_permissions_diff_df world_grant_error).1 = Ok diff
           ∧ planned Grant (selected "right_only" diff) = [q1; q2])
  ∧ (update_permissions world_grant_error).1 = Raise (ClientError q1)
  ∧ q2 ∉ trace (update_permissions world_grant_error).2.
Proof.
  cbn zeta. split; [|split].
  - exists (match (get_permissions_diff_df world_grant_error).1 with
            | Ok diff => diff
            | Raise _ => []
            end).
    split; vm_compute; reflexivity.
  - vm_compute. reflexivity.
  - assert (trace (update_permissions world_grant_error).2
            = (Fetch <$> domains)
              ++ [Grant Global [VStr "BUILD"; VStr "USER"; VStr "jdoe"]])
      as -> by (vm_compute; reflexivity).
    intros H. repeat (apply elem_of_cons in H as [H|H]; [discriminate|]).
    by apply elem_of_nil in H.
Qed.

(** ** The report writers and the apply phase *)

Lemma update_permissions_ok_calls w a r w' :
  update_permissions w = (Ok (a, r), w') →
  planned Grant a = calls_of Grant a ∧ planned Revoke r = calls_of Revoke r.
Proof.
  unfold update_permissions. intros H.
  apply bind_ok_inv in H as (diff & w1 & _ & H).
  apply bind_ok_inv in H as ([] & w2 & Hg & H).
  apply bind_ok_inv in H as ([] & w3 & Hr & H).
  injection H as <- <- _.
  apply (apply_loop_calls Grant) in Hg.
  apply (apply_loop_calls Revoke) in Hr. done.
Qed.

(** A run of [update_permissions] that ends normally: what it returns,
    the calls it made and the server it leaves. *)
Lemma update_permissions_ok_run w a r w' :
  update_permissions w = (Ok (a, r), w') →
  trace w' = trace w ++ (Fetch <$> domains) ++ calls_of Grant a
             ++ calls_of Revoke r
  ∧ store w' = served_calls (calls_of Revoke r)
                 (served_calls (calls_of Grant a) (store w)).
Proof.
  intros H. pose proof (update_permissions_ok_calls _ _ _ _ H) as [Hg Hr].
  apply update_permissions_ok_inv in H as (diff & _ & _ & _ & ->).
  cbn. by rewrite Hg, Hr.
Qed.

Lemma planned_no_selection mk : planned mk no_selection = [].
Proof. reflexivity. Qed.

(** A run of [update_permissions] that ends normally applies the diff
    it computed. *)
Lemma update_permissions_applies w a r w' :
  update_permissions w = (Ok (a, r), w') →
  ∃ diff,
    get_permissions_diff w = (Ok diff, fetched w)
    ∧ a = selected "right_only" diff
    ∧ r = selected "left_only" diff
    ∧ trace w' = trace w ++ (Fetch <$> domains) ++ calls_of Grant a
                 ++ calls_of Revoke r
    ∧ store w' = served_calls (calls_of Revoke r)
                   (served_calls (calls_of Grant a) (store w)).
Proof.
  intros H. pose proof (update_permissions_ok_run _ _ _ _ H) as [Ht Hs].
  apply update_permissions_ok_inv in H as (diff & Hd & Ha & Hr & _).
  by exists diff.
Qed.

(** C10 (amended): the two report writers are not read-only.  Each one
    runs [update_permissions], which applies the diff it computes: a
    writer that ends normally has made, after the six fetches, one grant
    per added row and one revoke per removed row of the diff, the server
    has taken these calls, and the report lists the rows of one side.
    The main program runs [update_permissions] twice, but the diff is
    applied once: when the server's entries have the fields of the
    calls, the calls of a main program that ends normally are the
    fetches of the plain report, the fetches, grants and revokes of the
    first run, and the six fetches of the second run, which finds
    nothing left to apply. *)
Theorem report_writers_apply_the_diff (w : world) :
  (∀ f rows w',
     write_permissions_diff_df_yaml_added f w = (Ok rows, w') →
     ∃ diff w1,
       get_permissions_diff w = (Ok diff, fetched w)
       ∧ rows = selected "right_only" diff
       ∧ update_permissions w = (Ok (rows, selected "left_only" diff), w1)
       ∧ w' = with_file w1 f (keyed "_diff_added" rows)
       ∧ trace w' = trace w ++ (Fetch <$> domains)
                    ++ calls_of Grant (selected "right_only" diff)
                    ++ calls_of Revoke (selected "left_only" diff)
       ∧ store w' = served_calls (calls_of Revoke (selected "left_only" diff))
                      (served_calls
                         (calls_of Grant (selected "right_only" diff))
                         (store w)))
  ∧ (∀ f rows w',
       write_permissions_diff_df_yaml_removed f w = (Ok rows, w') →
       ∃ diff w1,
         get_permissions_diff w = (Ok diff, fetched w)
         ∧ rows = selected "left_only" diff
         ∧ update_permissions w = (Ok (selected "right_only" diff, rows), w1)
         ∧ w' = with_file w1 f (keyed "_diff_removed" rows)
         ∧ trace w' = trace w ++ (Fetch <$> domains)
                      ++ calls_of Grant (selected "right_only" diff)
                      ++ calls_of Revoke (selected "left_only" diff)
         ∧ store w'
           = served_calls (calls_of Revoke (selected "left_only" diff))
               (served_calls (calls_of Grant (selected "right_only" diff))
                  (store w)))
  ∧ (∀ w',
       store_wf (store w) →
       main w = (Ok (), w') →
       ∃ diff,
         get_permissions_diff w = (Ok diff, fetched w)
         ∧ trace w' = trace w ++ (Fetch <$> domains)
                      ++ (Fetch <$> domains)
                      ++ calls_of Grant (selected "right_only" diff)
                      ++ calls_of Revoke (selected "left_only" diff)
                      ++ (Fetch <$> domains)).
Proof.
  split_and!.
  - intros f rows w'. rewrite write_added_run.
    destruct (update_permissions w) as [[[a r]|e] w1] eqn:Hu; [|discriminate].
    intros [= <- <-].
    destruct (update_permissions_applies _ _ _ _ Hu)
      as (diff & Hd & -> & -> & Ht & Hs).
    by exists diff, w1.
  - intros f rows w'. rewrite write_removed_run.
    destruct (update_permissions w) as [[[a r]|e] w1] eqn:Hu; [|discriminate].
    intros [= <- <-].
    destruct (update_permissions_applies _ _ _ _ Hu)
      as (diff & Hd & -> & -> & Ht & Hs).
    by exists diff, w1.
  - intros w' Hwf H. unfold main in H.
    apply bind_ok_inv in H as (ys & w1 & H1 & H).
    apply bind_ok_inv in H as (ys2 & w2 & H2 & H).
    apply bind_ok_inv in H as (ys3 & w3 & H3 & [= <-]).
    pose proof (write_permissions_diff_df_yaml_ok_inv _ _ _ _ H1) as ->.
    unfold write_permissions_diff_df_yaml, get_permissions_diff_df_yaml in H1.
    apply bind_ok_inv in H1 as (ys' & w0 & H1 & _).
    apply bind_ok_inv in H1 as (diff & w0' & Hd & _).
    pose proof (get_permissions_diff_df_ok_inv _ _ _ Hd)
      as (-> & doc0 & Hf0 & Hplan0).
    exists diff. split; [exact Hd|].
    rewrite write_added_run in H2.
    destruct (update_permissions (with_file (fetched w) _ _))
      as [[[a1 r1]|e] v1] eqn:Hu1; [|discriminate].
    injection H2 as _ <-. rewrite write_removed_run in H3.
    destruct (update_permissions (with_file v1 _ _))
      as [[[a2 r2]|e] v2] eqn:Hu2; [|discriminate].
    injection H3 as _ <-.
    pose proof (update_permissions_ok_run _ _ _ _ Hu1) as [Ht1 _].
    apply update_permissions_ok_inv in Hu1 as (diff1 & Hd1 & -> & -> & Hv1).
    apply get_permissions_diff_df_ok_inv in Hd1 as (_ & doc & Hf & Hplan).
    cbn [store desired_file with_file fetched] in Hf, Hplan.
    assert (doc0 = doc) as -> by congruence.
    assert (diff1 = diff) as -> by congruence.
    apply update_permissions_ok_inv in Hu2 as (diff2 & Hd2 & Ha2 & Hr2 & ->).
    apply get_permissions_diff_df_ok_inv in Hd2 as (_ & doc2 & Hf2 & Hplan2).
    cbn [store desired_file with_file] in Hf2, Hplan2.
    rewrite Hv1 in Hf2, Hplan2.
    cbn [store desired_file with_file fetched] in Hf2, Hplan2.
    assert (doc2 = doc) as -> by congruence.
    destruct (second_plan _ _ _ Hwf Hplan) as (_ & Hplan' & Hr & Hl).
    pose proof (eq_trans (eq_sym Hplan2) Hplan') as Heq.
    injection Heq as ->.
    assert (a2 = no_selection) as -> by (rewrite Ha2; exact Hr).
    assert (r2 = no_selection) as -> by (rewrite Hr2; exact Hl).
    cbn [trace with_file] in Ht1 |- *.
    rewrite !planned_no_selection, Ht1. cbn [trace fetched].
    by rewrite !app_nil_r, <- !(assoc_L (++)).
Qed.

Lemma report_writers_apply_the_diff_witness :
  let f := "permissions_diff_added.yaml" in
  let g := "permissions_diff_removed.yaml" in
  let w := world_replace in
  let a := result_or [] (write_permissions_diff_df_yaml_added f w).1 in
  let r := result_or [] (write_permissions_diff_df_yaml_removed g w).1 in
  (∃ diff w1,
     get_permissions_diff w = (Ok diff, fetched w)
     ∧ a = selected "right_only" diff
     ∧ update_permissions w = (Ok (a, selected "left_only" diff), w1)
     ∧ (write_permissions_diff_df_yaml_added f w).2
       = with_file w1 f (keyed "_diff_added" a)
     ∧ trace (write_permissions_diff_df_yaml_added f w).2
       = trace w ++ (Fetch <$> domains)
         ++ calls_of Grant (selected "right_only" diff)
         ++ calls_of Revoke (selected "left_only" diff)
     ∧ store (write_permissions_diff_df_yaml_added f w).2
       = served_calls (calls_of Revoke (selected "left_only" diff))
           (served_calls (calls_of Grant (selected "right_only" diff))
              (store w)))
  ∧ (∃ diff w1,
       get_permissions_diff w = (Ok diff, fetched w)
       ∧ r = selected "left_only" diff
       ∧ update_permissions w = (Ok (selected "right_only" diff, r), w1)
       ∧ (write_permissions_diff_df_yaml_removed g w).2
         = with_file w1 g (keyed "_diff_removed" r)
       ∧ trace (write_permissions_diff_df_yaml_removed g w).2
         = trace w ++ (Fetch <$> domains)
           ++ calls_of Grant (selected "right_only" diff)
           ++ calls_of Revoke (selected "left_only" diff)
       ∧ store (write_permissions_diff_df_yaml_removed g w).2
         = served_calls (calls_of Revoke (selected "left_only" diff))
             (served_calls (calls_of Grant (selected "right_only" diff))
                (store w)))
  ∧ ∃ diff,
      get_permissions_diff w = (Ok diff, fetched w)
      ∧ trace (main w).2
        = trace w ++ (Fetch <$> domains)
          ++ (Fetch <$> domains)
          ++ calls_of Grant (selected "right_only" diff)
          ++ calls_of Revoke (selected "left_only" diff)
          ++ (Fetch <$> domains).
Proof.
  cbn zeta. split_and!.
  - apply (proj1 (report_writers_apply_the_diff world_replace)).
    apply run_ok_or. vm_compute. reflexivity.
  - apply (proj1 (proj2 (report_writers_apply_the_diff world_replace))).
    apply run_ok_or. vm_compute. reflexivity.
  - apply (proj2 (proj2 (report_writers_apply_the_diff world_replace))).
    + intros d. destruct d; by_compute.
    + apply run_ok_unit. vm_compute. reflexivity.
Defined.

(** C10, as the claim has it, fails in the replacement scenario: the main
    program ends normally and has made the grant and the revoke of the
    diff once, in its first run of [update_permissions]; the second run,
    that of the removed report, makes the six fetches and no other
    call. *)
Lemma diff_not_applied_twice :
  let g := Grant Global [VStr "VIEW"; VStr "USER"; VStr "jdoe"] in
  let r := Revoke Global [VStr "EDIT"; VStr "USER"; VStr "jdoe"] in
  let w2 := (write_permissions_diff_df_yaml_added
               "permissions_diff_added.yaml"
               (write_permissions_diff_df_yaml "permissions_diff.yaml"
                  world_replace).2).2 in
  (main world_replace).1 = Ok ()
  ∧ trace (main world_replace).2
    = (Fetch <$> domains) ++ (Fetch <$> domains) ++ [g; r]
      ++ (Fetch <$> domains)
  ∧ trace w2 = (Fetch <$> domains) ++ (Fetch <$> domains) ++ [g; r]
  ∧ trace (write_permissions_diff_df_yaml_removed
             "permissions_diff_removed.yaml" w2).2
    = trace w2 ++ (Fetch <$> domains).
Proof. cbn zeta. split_and!; vm_compute; reflexivity. Qed.

(** ** The second of two runs *)

Lemma fetch_all_succeed ds w :
  (∀ pre d post, ds = pre ++ d :: post →
                 fails w (trace w ++ (Fetch <$> pre)) (Fetch d) = false) →
  mapM (λ d, es ← client_get d; mret (d, es)) ds w
  = (Ok ((λ d, (d, store w d)) <$> ds),
     with_trace w (trace w ++ (Fetch <$> ds))).
Proof.
  revert w. induction ds as [|d ds IH]; intros w Hok.
  - cbn. unfold mret, M_ret, with_trace. rewrite app_nil_r. by destruct w.
  - cbn. rewrite bind_run, bind_run, client_get_ok.
    + cbn. rewrite bind_run, IH.
      * cbn. unfold with_trace; cbn. by rewrite <- (assoc_L (++)).
      * intros pre d' post ->. cbn. rewrite <- (assoc_L (++)).
        by apply (Hok (d :: pre) d' post).
    + rewrite <- (app_nil_r (trace w)). by apply (Hok [] d ds).
Qed.

Lemma get_current_permissions_df_succeed w :
  fetches_succeed w →
  get_current_permissions_df w = (Ok (current_frames (store w)), fetched w).
Proof.
  intros Hok. unfold get_current_permissions_df, get_current_permissions,
    BambooAccess.write_all_permissions_df_yaml,
    BambooAccess.get_all_permissions_df_yaml,
    BambooAccess.get_all_permissions_df, BambooAccess.get_all_permissions.
  rewrite !bind_run, fetch_all_succeed by done. cbn. done.
Qed.

Lemma get_permissions_diff_df_succeed w doc :
  fetches_succeed w → desired_file w = inr doc →
  get_permissions_diff_df w = (plan_diff (store w) doc, fetched w).
Proof.
  intros Hok Hf. unfold get_permissions_diff_df, get_permissions_diff.
  rewrite bind_run, get_current_permissions_df_succeed by done.
  rewrite bind_run, get_desired_permissions_df_run.
  change (desired_file (fetched w)) with (desired_file w). rewrite Hf.
  unfold plan_diff. by destruct (desired_entries doc).
Qed.

Lemma update_permissions_nothing w diff :
  get_permissions_diff_df w = (Ok diff, fetched w) →
  selected "right_only" diff = no_selection →
  selected "left_only" diff = no_selection →
  update_permissions w = (Ok (no_selection, no_selection), fetched w).
Proof.
  intros Hd Hr Hl. unfold update_permissions.
  rewrite bind_run, Hd, Hr, Hl. reflexivity.
Qed.

(** The diff of a run that follows a run that ended normally. *)
Lemma second_diff w w1 a r :
  store_wf (store w) →
  update_permissions w = (Ok (a, r), w1) →
  ∃ doc diff',
    desired_file w1 = inr doc
    ∧ plan_diff (store w1) doc = Ok diff'
    ∧ selected "right_only" diff' = no_selection
    ∧ selected "left_only" diff' = no_selection.
Proof.
  intros Hwf Hrun.
  apply update_permissions_ok_inv in Hrun as (diff & Hd & -> & -> & ->).
  apply get_permissions_diff_df_ok_inv in Hd as (_ & doc & Hf & Hplan).
  destruct (second_plan _ _ _ Hwf Hplan) as (_ & Hplan' & Hr & Hl).
  eexists doc, _. split_and!; [exact Hf | exact Hplan' | exact Hr | exact Hl].
Qed.

(** C2: a second run finds nothing to do.  The server starts with
    entries that have the fields of the calls, as every entry that a
    grant makes has.  When a run of [update_permissions] ends normally,
    so that all its grant and revoke calls succeeded, a second run on
    the server it leaves, with the desired file unchanged, makes fetch
    calls only, and no grant or revoke call; when its six fetches
    succeed it ends normally and returns an empty added list and an
    empty removed list for every domain. *)
Theorem second_run_issues_no_call (w w1 : world)
    (added removed : list (domain * list (gmap string cell))) :
  store_wf (store w) →
  update_permissions w = (Ok (added, removed), w1) →
  (∃ fs, trace (update_permissions w1).2 = trace w1 ++ fs
         ∧ Forall is_fetch fs)
  ∧ (fetches_succeed w1 →
     update_permissions w1 = (Ok (no_selection, no_selection), fetched w1)).
Proof.
  intros Hwf Hrun.
  destruct (second_diff _ _ _ _ Hwf Hrun) as (doc & diff' & Hf & Hplan & Hr & Hl).
  split.
  - destruct (runs_get_permissions_diff_df w1) as (fs & (Hfs & _) & Hall & _).
    destruct (get_permissions_diff_df w1) as [[diff2|e] w2] eqn:Hd2.
    + pose proof (get_permissions_diff_df_ok_inv _ _ _ Hd2)
        as (-> & doc2 & Hf2 & Hplan2).
      assert (doc2 = doc) as -> by congruence.
      assert (diff2 = diff') as -> by congruence.
      rewrite (update_permissions_nothing _ _ Hd2 Hr Hl).
      exists fs. by split.
    + assert (update_permissions w1 = (Raise e, w2)) as ->
        by (by apply bind_raise).
      exists fs. by split.
  - intros Hok. apply (update_permissions_nothing _ diff'); [|done..].
    by rewrite (get_permissions_diff_df_succeed _ doc), Hplan.
Qed.

Lemma second_run_issues_no_call_witness :
  let w1 := (update_permissions world_replace).2 in
  (∃ fs, trace (update_permissions w1).2 = trace w1 ++ fs
         ∧ Forall is_fetch fs)
  ∧ update_permissions w1 = (Ok (no_selection, no_selection), fetched w1).
Proof.
  cbn zeta.
  destruct (second_run_issues_no_call world_replace
              (update_permissions world_replace).2
              (result_or ([], []) (update_permissions world_replace).1).1
              (result_or ([], []) (update_permissions world_replace).1).2)
    as [Hcalls Hrun].
  - intros d. destruct d; by_compute.
  - rewrite <- surjective_pairing. apply run_ok_or. vm_compute. reflexivity.
  - split; [exact Hcalls|]. apply Hrun. intros pre d post _. reflexivity.
Defined.

(** In the replacement scenario the first run grants and revokes, and
    the second run makes its six fetches. *)
Example second_run_calls :
  let w1 := (update_permissions world_replace).2 in
  trace w1
  = (Fetch <$> domains)
    ++ [Grant Global [VStr "VIEW"; VStr "USER"; VStr "jdoe"];
        Revoke Global [VStr "EDIT"; VStr "USER"; VStr "jdoe"]]
  ∧ trace (update_permissions w1).2 = trace w1 ++ (Fetch <$> domains).
Proof. cbn zeta. split; vm_compute; reflexivity. Qed.

(** ** Identity columns *)

Lemma get_all_permissions_df_succeed w :
  fetches_succeed w →
  BambooAccess.get_all_permissions_df w
  = (Ok ((λ d, (d, pd_DataFrame (store w d))) <$> domains),
     with_trace w (trace w ++ (Fetch <$> domains))).
Proof.
  intros Hok. unfold BambooAccess.get_all_permissions_df,
    BambooAccess.get_all_permissions.
  by rewrite bind_run, fetch_all_succeed.
Qed.

(** C9 (amended): neither the fetcher nor the loader validates identity
    columns.  When the six fetches succeed and the desired document has
    the six domain keys, both succeed on any entries, and every entry is
    carried into its frame with the same columns populated: an entry
    that names both a user and a group, or neither, yields a row that
    does the same. *)
Theorem identity_columns_not_validated (w : world)
    (doc : gmap string (list (gmap string cell))) :
  fetches_succeed w →
  desired_file w = inr doc →
  (∀ d, is_Some (doc !! yaml_key d)) →
  (∃ dfs w', BambooAccess.get_all_permissions_df w = (Ok dfs, w')
             ∧ ∀ d e, e ∈ store w d →
                      ∃ df x, (d, df) ∈ dfs ∧ x ∈ rows df
                              ∧ ∀ k, populated k x ↔ populated k e)
  ∧ (∃ dfs, get_desired_permissions_df w = (Ok dfs, w)
            ∧ ∀ d es e, doc !! yaml_key d = Some es → e ∈ es →
                        ∃ df x, (d, df) ∈ dfs ∧ x ∈ rows df
                                ∧ ∀ k, populated k x ↔ populated k e).
Proof.
  intros Hav Hf Hk. split.
  - eexists _, _. split; [by apply get_all_permissions_df_succeed|].
    intros d e He. exists (pd_DataFrame (store w d)),
      (fill (columns (pd_DataFrame (store w d))) e).
    split_and!.
    + apply list_elem_of_fmap. exists d. split; [done|]. apply elem_of_domains.
    + cbn. apply list_elem_of_fmap. eauto.
    + intros k. apply carried_populated, carried_fill.
  - eexists. split; [by apply get_desired_permissions_df_ok|].
    intros d es e Hes He.
    exists (pd_DataFrame es), (fill (columns (pd_DataFrame es)) e).
    split_and!.
    + apply list_elem_of_fmap. exists d. rewrite Hes. split; [done|].
      apply elem_of_domains.
    + cbn. apply list_elem_of_fmap. eauto.
    + intros k. apply carried_populated, carried_fill.
Qed.

Lemma identity_columns_not_validated_witness :
  (∃ dfs w', BambooAccess.get_all_permissions_df world_identities
             = (Ok dfs, w')
             ∧ ∀ d e, e ∈ store world_identities d →
                      ∃ df x, (d, df) ∈ dfs ∧ x ∈ rows df
                              ∧ ∀ k, populated k x ↔ populated k e)
  ∧ (∃ dfs, get_desired_permissions_df world_identities
            = (Ok dfs, world_identities)
            ∧ ∀ d es e,
                example_document [both_identities] !! yaml_key d = Some es →
                e ∈ es →
                ∃ df x, (d, df) ∈ dfs ∧ x ∈ rows df
                        ∧ ∀ k, populated k x ↔ populated k e).
Proof.
  apply (identity_columns_not_validated world_identities
           (example_document [both_identities])).
  - intros pre d post _. reflexivity.
  - reflexivity.
  - intros d. destruct d; by_compute.
Defined.

(** C9, as the spec has it, fails: the loader accepts a desired entry
    that names both a user and a group, the fetcher accepts a server
    entry that names neither, and both rows reach their frames as they
    are. *)
Lemma identity_not_exclusive :
  (populated "user" both_identities ∧ populated "group" both_identities)
  ∧ (¬ populated "user" no_identity ∧ ¬ populated "group" no_identity)
  ∧ (λ p : domain * DataFrame, rows p.2)
      <$> take 1 (frames_of (get_desired_permissions_df world_identities).1)
    = [[both_identities]]
  ∧ (λ p : domain * DataFrame, rows p.2)
      <$> take 1 (frames_of
                    (BambooAccess.get_all_permissions_df world_identities).1)
    = [[no_identity]].
Proof.
  split_and!; try by_compute.
  - exists (VStr "admin"). split; [by_compute | discriminate].
  - exists (VStr "admins"). split; [by_compute | discriminate].
  - intros (c & Hc & _).
    assert (no_identity !! "user" = None) by by_compute. congruence.
  - intros (c & Hc & _).
    assert (no_identity !! "group" = None) by by_compute. congruence.
Qed.
